(** * The crash manager of obs-studio-server (util-crashmanager.cpp)

    A shallow embedding of the crash diagnostics code: the byte formatter,
    the known-crash filter, the call stack rewinder, the log readers and the
    report assembler with its reentrancy latch, followed by the properties
    that the specification states about them. *)

From Stdlib Require Import ZArith QArith Qround Lqa Lia Bool List.
From Stdlib Require Import Strings.String Strings.Ascii Numbers.DecimalString.
From stdpp Require Import gmap strings.

Local Open Scope string_scope.
Local Open Scope Z_scope.

(** ** Text helpers shared by the whole file *)

(** [std::to_string] on an integer: the decimal digits, with a sign when
    negative. *)
Definition to_string (z : Z) : string :=
  NilEmpty.string_of_int (Z.to_int z).

(** [int(x)] for a double [x] within the range of [int]: the fraction is
    dropped. *)
Definition int_of_double (x : Q) : Z :=
  Z.quot (Qnum x) (Zpos (Qden x)).

(** ** PrettyBytes *)

Module Bytes.

(** The seven entries of the local array [suffixes]. *)
Definition suffixes : list string :=
  ["b"; "kb"; "mb"; "gb"; "tb"; "pb"; "eb"].

(** [double(bytes)] for a 64-bit unsigned value: the value itself when it
    has at most 53 significant bits, otherwise the nearest multiple of
    [2^e] (ties to the even mantissa), [e] being the number of bits that do
    not fit.  The result is an integer, so it is kept in [Z]. *)
Definition double_of_uint64 (b : Z) : Z :=
  let e := Z.log2 b - 52 in
  if e <=? 0 then b
  else
    let q := b / 2 ^ e in
    let r := b mod 2 ^ e in
    let half := 2 ^ (e - 1) in
    let q' := if r <? half then q
              else if half <? r then q + 1
              else if Z.even q then q else q + 1 in
    q' * 2 ^ e.

(** The loop [while (count >= 1024 && s < 7) { s++; count /= 1024; }].
    [count] is a double; every value it takes is an integer of at most 53
    significant bits divided by a power of two, and dividing such a double
    by 1024 is exact, so the rationals hold the same values.  The guard
    [s < 7] bounds the number of turns by seven, which is what [fuel]
    counts. *)
Fixpoint suffix_loop (fuel : nat) (count : Q) (s : Z) : Q * Z :=
  match fuel with
  | O => (count, s)
  | S fuel' =>
      if Qle_bool 1024 count && (s <? 7)
      then suffix_loop fuel' (count / 1024) (s + 1)
      else (count, s)
  end.

(** How [printf] settles a value that lies exactly between two neighbours
    at the printed precision.  The C runtime decides this: current ones
    round such a tie to the even digit, older ones away from zero. *)
Inductive tie_rule : Set := TiesToEven | TiesAway.

(** [count] rounded to a whole number of tenths. *)
Definition round_tenths (tr : tie_rule) (count : Q) : Z :=
  let x := (count * 10)%Q in
  let lo := Qfloor x in
  let frac := (x - inject_Z lo)%Q in
  match Qcompare frac (1 # 2) with
  | Lt => lo
  | Gt => lo + 1
  | Eq => match tr with
          | TiesAway => lo + 1
          | TiesToEven => if Z.even lo then lo else lo + 1
          end
  end.

(** [sprintf(temp, "%.1f", count)] for a non-negative [count]. *)
Definition sprintf_1f (tr : tie_rule) (count : Q) : string :=
  let t := round_tenths tr count in
  to_string (t / 10) +:+ "." +:+ to_string (t mod 10).

(** [sprintf(temp, "%d", (int)count)]. *)
Definition sprintf_d (count : Q) : string :=
  to_string (int_of_double count).

(** [count - floor(count) == 0.0]. *)
Definition is_whole (count : Q) : bool :=
  Qeq_bool (count - inject_Z (Qfloor count)) 0.

(** [PrettyBytes].  The argument is a [uint64_t]; a caller that passes a
    signed value gets it reduced modulo [2^64] first (see [to_uint64]).
    [suffixes[s]] is an array read: an index outside the seven entries has
    no defined value, which is [None] here. *)
Definition PrettyBytes (tr : tie_rule) (bytes : Z) : option string :=
  let '(count, s) := suffix_loop 7 (inject_Z (double_of_uint64 bytes)) 0 in
  match nth_error suffixes (Z.to_nat s) with
  | None => None
  | Some suffix =>
      if is_whole count
      then Some (sprintf_d count +:+ suffix)
      else Some (sprintf_1f tr count +:+ suffix)
  end.

(** The value of [count] after [n] turns of the loop begun at [m]. *)
Definition scaled (m : Q) (n : nat) : Q :=
  Nat.iter n (fun c => c / 1024)%Q m.

(** Conversion of a [long long] or [size_t] argument to the [uint64_t]
    parameter. *)
Definition to_uint64 (z : Z) : Z := z mod 2 ^ 64.

End Bytes.

(** ** std::string operations used by the file *)

Module Str.

(** [s] starts with [pat]. *)
Fixpoint starts_with (pat s : string) : bool :=
  match pat, s with
  | EmptyString, _ => true
  | String _ _, EmptyString => false
  | String a pat', String b s' => Ascii.eqb a b && starts_with pat' s'
  end.

(** [s.find(pat)] counted from [pos], the offset of [s] in the whole
    string: the first position at which [pat] occurs, [None] for [npos]. *)
Fixpoint find_from (pos : nat) (s pat : string) : option nat :=
  if starts_with pat s then Some pos
  else match s with
       | EmptyString => None
       | String _ s' => find_from (S pos) s' pat
       end.

Definition find (s pat : string) : option nat := find_from 0 s pat.

(** [s.rfind(c)] for a one-character pattern: the last position holding
    [c]. *)
Fixpoint rfind_char_from (pos : nat) (s : string) (c : ascii) : option nat :=
  match s with
  | EmptyString => None
  | String a s' =>
      match rfind_char_from (S pos) s' c with
      | Some p => Some p
      | None => if Ascii.eqb a c then Some pos else None
      end
  end.

Definition rfind_char (s : string) (c : ascii) : option nat :=
  rfind_char_from 0 s c.

(** [s.find_first_not_of(c)]. *)
Fixpoint find_first_not_of_from (pos : nat) (s : string) (c : ascii)
  : option nat :=
  match s with
  | EmptyString => None
  | String a s' =>
      if Ascii.eqb a c then find_first_not_of_from (S pos) s' c else Some pos
  end.

Definition find_first_not_of (s : string) (c : ascii) : option nat :=
  find_first_not_of_from 0 s c.

(** [s.substr(pos, n)] for [pos <= s.length()], the only way the file
    calls it: at most [n] characters from [pos], cut at the end of [s]. *)
Definition substr (s : string) (pos n : nat) : string :=
  String.substring pos n s.

(** [::tolower] in the "C" locale, mapped over a string by [transform]. *)
Definition tolower_ascii (a : ascii) : ascii :=
  let n := nat_of_ascii a in
  if ((65 <=? n) && (n <=? 90))%nat then ascii_of_nat (n + 32) else a.

Fixpoint tolower (s : string) : string :=
  match s with
  | EmptyString => EmptyString
  | String a s' => String (tolower_ascii a) (tolower s')
  end.

(** [pat] occurs in [s]: the meaning of "substring". *)
Definition occurs_in (pat s : string) : Prop :=
  exists pre post : string, s = pre +:+ pat +:+ post.

End Str.

(** ** The json values the file builds *)

(** The part of [nlohmann::json] that the file uses.  An object is a
    [std::map], so its keys are unique; it is kept as an association list
    and written only through [json_set]. *)
#[warnings="-register-all"]
Inductive json : Type :=
| JNull
| JBool (b : bool)
| JNum (n : Z)
| JStr (s : string)
| JArr (items : list json)
| JObj (fields : list (string * json)).

(** [j.push_back(v)]: a null value becomes a one-element array, an array
    grows at its end.  The file calls it on nothing else with a plain
    value. *)
Definition json_push_back (j v : json) : json :=
  match j with
  | JNull => JArr [v]
  | JArr items => JArr (items ++ [v])
  | other => other
  end.

(** [j[key] = v] on an object (or on null, which becomes an object). *)
Fixpoint fields_set (key : string) (v : json) (fs : list (string * json))
  : list (string * json) :=
  match fs with
  | [] => [(key, v)]
  | (k, w) :: fs' =>
      if String.eqb k key then (k, v) :: fs' else (k, w) :: fields_set key v fs'
  end.

Definition json_set (key : string) (v : json) (j : json) : json :=
  match j with
  | JNull => JObj [(key, v)]
  | JObj fs => JObj (fields_set key v fs)
  | other => other
  end.

(** [result.push_back({name, value})] on an object: the pair is added
    unless the key is already there ([std::map::insert]). *)
Definition json_push_back_pair (j : json) (key : string) (v : json) : json :=
  match j with
  | JObj fs =>
      if existsb (fun kv => String.eqb (fst kv) key) fs then JObj fs
      else JObj (fs ++ [(key, v)])
  | other => other
  end.

(** A sequence of messages pushed one by one onto a default-constructed
    (null) json value: the loops of [RequestOBSLog], [ComputeBreadcrumbs]
    and [ComputeWarnings]. *)
Definition json_of_messages (msgs : list string) : json :=
  fold_left (fun acc msg => json_push_back acc (JStr msg)) msgs JNull.

(** The json library's conversion of a value to [std::string], which is
    what initialising a [std::string] from a json value runs: a string
    value gives its text, any other kind of value makes the library raise
    [type_error] ("type must be string"), [None] here. *)
Definition nlohmann_as_string (j : json) : option string :=
  match j with
  | JStr s => Some s
  | _ => None
  end.

(** ** What the code obtains from outside the file *)

(** The operating system queries, the engine and crashpad calls and the
    library routines whose text is not part of the repository, as the crash
    path sees them at the moment it runs. *)
Record Runtime : Type := {
  (** [GetProcAddress(.., "RtlCaptureStackBackTrace")] is not null *)
  capture_available : bool;
  (** the return addresses of the current thread, innermost call first,
      as [RtlCaptureStackBackTrace] hands them out *)
  return_addresses : list Z;
  (** [SymFromAddr]: the symbol's [Name] and [Address] *)
  SymFromAddr : Z -> option (string * Z);
  (** [SymGetLineFromAddr64]: the line's [FileName] and [LineNumber] *)
  SymGetLineFromAddr64 : Z -> option (string * Z);
  (** [buffer << callers_stack[i]]: the stream's text for a pointer *)
  pointer_text : Z -> string;
  (** [RequestComputerUsageParams] *)
  totalPhysMem : Z;
  physMemUsed : Z;
  physMemUsedByMe : Z;
  totalCPUUsed : Q;
  (** [std::to_string(double(a) / double(b))] *)
  ratio_text : Z -> Z -> string;
  (** [GetComputerName], [None] when it fails *)
  computer_name : option string;
  (** [EnumProcesses], [None] when it fails; per process its identifier
      and, when the process could be opened and its modules listed, the
      base name of its module *)
  process_table : option (list (Z * option string));
  (** seconds on the steady clock since [initialTime] *)
  elapsed_seconds : Z;
  (** [bnum_allocs()] *)
  bnum_allocs : Z;
  (** crashpad: the database opens, the handler starts, the wait for the
      handler succeeds *)
  database_ok : bool;
  start_handler_ok : bool;
  wait_handler_ok : bool;
  (** [json::dump(4)] *)
  dump4 : json -> string;
  (** how the C runtime's [printf] settles a tie at the last printed digit *)
  printf_ties : Bytes.tie_rule;
  (** the json library turning a json value into the [std::string] that a
      map entry stores; [None] when the library raises an exception *)
  json_as_string : json -> option string
}.

(** ** RewindCallStack *)

Module Rewind.

(** One element of the array that [RewindCallStack] returns.  The two
    attributes that are set only under a condition are options. *)
Record frame_entry : Type := {
  fn_name : string;                          (* "function" *)
  filename : string;                         (* "filename" *)
  lineno : Z;                                (* "lineno" *)
  instruction_addr : string;                 (* "instruction addr" *)
  symbol_addr : string;                      (* "symbol addr" *)
  in_app : option bool;                      (* "in app" *)
  frames_omitted : option (string * string)  (* "frames omitted" *)
}.

(** The variables that the loop updates. *)
Record loop_state : Type := {
  missingFrames : list Z;
  crashedMethod : string;
  result : list frame_entry
}.

Definition kMaxCallers : nat := 62.
Definition MAX_CALLERS_SHOWN : nat := 50.

(** [callers_stack] after the capture: at most [kMaxCallers] addresses. *)
Definition callers_stack (rt : Runtime) : list Z :=
  firstn kMaxCallers (return_addresses rt).

(** [frames], after the cut to [MAX_CALLERS_SHOWN]. *)
Definition frames (rt : Runtime) : nat :=
  Nat.min (List.length (callers_stack rt)) MAX_CALLERS_SHOWN.

(** [int(skip)] for the [uint32_t] parameter. *)
Definition int_of_uint32 (u : Z) : Z :=
  if u <? 2 ^ 31 then u else u - 2 ^ 32.

(** The values that [i] takes in
    [for (int i = frames - 1; i >= int(skip); i--)], in the order the loop
    takes them.  [i] never goes below zero here; the source would for a
    negative [int(skip)], reading in front of the array. *)
Fixpoint loop_indices (n : nat) (skip : Z) : list nat :=
  match n with
  | O => []
  | S i => if Z.of_nat i <? skip then [] else i :: loop_indices i skip
  end.

(** The file name cut out of the full path: what follows the last
    backslash, and nothing when the path has none. *)
Definition file_of_path (fullPath : string) : string :=
  match Str.rfind_char fullPath "\"%char with
  | Some pos =>
      Str.substr fullPath (pos + 1) (String.length fullPath - pos)
  | None => ""
  end.

(** The shortening of the printed address ("a little of magic"). *)
Definition shorten_address (instructionAddress : string) : string :=
  match Str.find_first_not_of instructionAddress "0"%char with
  | Some pos =>
      if (pos <=? 4)%nat
      then Str.substr instructionAddress (pos + 1)
                      (String.length instructionAddress - pos)
      else instructionAddress
  | None => instructionAddress
  end.

(** One turn of the loop, for index [i]. *)
Definition loop_body (rt : Runtime) (i : nat) (st : loop_state) : loop_state :=
  let address := nth i (callers_stack rt) 0 in
  let missed :=
    {| missingFrames := missingFrames st ++ [Z.of_nat i];
       crashedMethod := crashedMethod st;
       result := result st |} in
  match SymFromAddr rt address with
  | None => missed
  | Some (functionName, symAddress) =>
      match SymGetLineFromAddr64 rt address with
      | None => missed
      | Some (fullPath, lineNumber) =>
          let fileName := file_of_path fullPath in
          if String.eqb fileName "util-crashmanager.cpp" then st
          else
            let instructionAddress :=
              Str.tolower (shorten_address (pointer_text rt address)) in
            let symbolAddress := Str.tolower (to_string symAddress) in
            let entry :=
              {| fn_name := functionName;
                 filename := fileName;
                 lineno := lineNumber;
                 instruction_addr := "0x" +:+ instructionAddress;
                 symbol_addr := "0x" +:+ symbolAddress;
                 in_app :=
                   if String.eqb (Str.substr functionName 0 5) "std::"
                      || String.eqb (Str.substr functionName 0 2) "__"
                   then Some false else None;
                 frames_omitted :=
                   match last (missingFrames st) with
                   | Some back =>
                       Some (to_string back, to_string (Z.of_nat i))
                   | None => None
                   end |} in
            {| missingFrames := [];
               crashedMethod := functionName;
               result := result st ++ [entry] |}
      end
  end.

(** [RewindCallStack(skip, crashedMethod)] of a release build on Windows,
    with the array kept as records: the entries and the final value of the
    reference parameter [crashedMethod]. *)
Definition RewindCallStack_frames (rt : Runtime) (skip : Z)
  (crashedMethod0 : string) : list frame_entry * string :=
  if negb (capture_available rt) then ([], crashedMethod0)
  else
    let final :=
      fold_left (fun st i => loop_body rt i st)
                (loop_indices (frames rt) (int_of_uint32 skip))
                {| missingFrames := [];
                   crashedMethod := crashedMethod0;
                   result := [] |} in
    (result final, crashedMethod final).

(** What the two symbol queries give for the frame at index [i], when
    both succeed: name, symbol address, full path, line. *)
Definition resolution (rt : Runtime) (i : nat)
  : option (string * Z * string * Z) :=
  let address := nth i (callers_stack rt) 0 in
  match SymFromAddr rt address, SymGetLineFromAddr64 rt address with
  | Some (functionName, symAddress), Some (fullPath, lineNumber) =>
      Some (functionName, symAddress, fullPath, lineNumber)
  | _, _ => None
  end.

(** The function name of frame [i] when the loop emits an entry for it:
    the frame resolves and does not lie in the crash manager's own file. *)
Definition emitted_name (rt : Runtime) (i : nat) : option string :=
  match resolution rt i with
  | Some (functionName, _, fullPath, _) =>
      if String.eqb (file_of_path fullPath) "util-crashmanager.cpp"
      then None else Some functionName
  | None => None
  end.

(** The reading of the specification, for comparison: frames taken from
    the innermost one outwards, after the first [skip] ones, and the
    crashed method named after the last frame emitted in that order. *)
Definition spec_order (rt : Runtime) (skip : nat) : list nat :=
  seq skip (frames rt - skip).

Definition spec_crashedMethod (rt : Runtime) (skip : nat)
  (crashedMethod0 : string) : string :=
  default crashedMethod0 (last (omap (emitted_name rt) (spec_order rt skip))).

(** The json object built for one entry. *)
Definition entry_json (e : frame_entry) : json :=
  let j := json_set "function" (JStr (fn_name e)) JNull in
  let j := json_set "filename" (JStr (filename e)) j in
  let j := json_set "lineno" (JNum (lineno e)) j in
  let j := json_set "instruction addr" (JStr (instruction_addr e)) j in
  let j := json_set "symbol addr" (JStr (symbol_addr e)) j in
  let j := match in_app e with
           | Some b => json_set "in app" (JBool b) j
           | None => j
           end in
  match frames_omitted e with
  | Some (a, b) => json_set "frames omitted" (JArr [JStr a; JStr b]) j
  | None => j
  end.

Definition RewindCallStack (rt : Runtime) (skip : Z) (crashedMethod0 : string)
  : json * string :=
  let '(entries, crashed) := RewindCallStack_frames rt skip crashedMethod0 in
  (JArr (map entry_json entries), crashed).

End Rewind.

(** ** The global variables of the file and of the engine *)

Record State : Type := {
  (** [static bool insideCrashMethod] of [HandleCrash] *)
  insideCrashMethod : bool;
  (** [std::map<std::string, std::string> annotations] *)
  annotations : gmap string string;
  (** [std::vector<std::string> arguments] (crashpad handler arguments) *)
  arguments : list string;
  (** every call of [client.StartHandler], with the annotations and the
      arguments it was given *)
  start_requests : list (gmap string string * list string);
  (** [breadcrumbs], [warnings], [handledOBSCrashes] *)
  breadcrumbs : list string;
  warnings : list string;
  handledOBSCrashes : list string;
  (** the buffers behind [OBS_API::getOBSLogErrors], [getOBSLogWarnings]
      (iterated in place) and [getOBSLogGeneral] (a queue, front first) *)
  obs_log_errors : list string;
  obs_log_warnings : list string;
  obs_log_general : list string;
  (** [obs_initialized()] *)
  obs_active : bool
}.

Definition set_insideCrashMethod (b : bool) (st : State) : State :=
  {| insideCrashMethod := b;
     annotations := annotations st;
     arguments := arguments st;
     start_requests := start_requests st;
     breadcrumbs := breadcrumbs st;
     warnings := warnings st;
     handledOBSCrashes := handledOBSCrashes st;
     obs_log_errors := obs_log_errors st;
     obs_log_warnings := obs_log_warnings st;
     obs_log_general := obs_log_general st;
     obs_active := obs_active st |}.

Definition set_annotations (m : gmap string string) (st : State) : State :=
  {| insideCrashMethod := insideCrashMethod st;
     annotations := m;
     arguments := arguments st;
     start_requests := start_requests st;
     breadcrumbs := breadcrumbs st;
     warnings := warnings st;
     handledOBSCrashes := handledOBSCrashes st;
     obs_log_errors := obs_log_errors st;
     obs_log_warnings := obs_log_warnings st;
     obs_log_general := obs_log_general st;
     obs_active := obs_active st |}.

Definition set_obs_log_general (q : list string) (st : State) : State :=
  {| insideCrashMethod := insideCrashMethod st;
     annotations := annotations st;
     arguments := arguments st;
     start_requests := start_requests st;
     breadcrumbs := breadcrumbs st;
     warnings := warnings st;
     handledOBSCrashes := handledOBSCrashes st;
     obs_log_errors := obs_log_errors st;
     obs_log_warnings := obs_log_warnings st;
     obs_log_general := q;
     obs_active := obs_active st |}.

Definition set_crashpad (args : list string)
  (reqs : list (gmap string string * list string)) (st : State) : State :=
  {| insideCrashMethod := insideCrashMethod st;
     annotations := annotations st;
     arguments := args;
     start_requests := reqs;
     breadcrumbs := breadcrumbs st;
     warnings := warnings st;
     handledOBSCrashes := handledOBSCrashes st;
     obs_log_errors := obs_log_errors st;
     obs_log_warnings := obs_log_warnings st;
     obs_log_general := obs_log_general st;
     obs_active := obs_active st |}.

(** How a call ends: it returns, or the process ends inside it through
    [abort()] or through [exit(code)].  [OutOfFuel] belongs to the model
    only: the depth allowed for crash hooks entered from within
    [HandleCrash] was used up. *)
Inductive Outcome (A : Type) : Type :=
| Returned (a : A) (st : State)
| Aborted (st : State)
| Exited (code : Z) (st : State)
| OutOfFuel.

Arguments Returned {A} a st.
Arguments Aborted {A} st.
Arguments Exited {A} code st.
Arguments OutOfFuel {A}.

Definition bind {A B : Type} (o : Outcome A) (k : A -> State -> Outcome B)
  : Outcome B :=
  match o with
  | Returned a st => k a st
  | Aborted st => Aborted st
  | Exited code st => Exited code st
  | OutOfFuel => OutOfFuel
  end.

(** The state in which a call left the globals. *)
Definition final_state {A : Type} (o : Outcome A) : option State :=
  match o with
  | Returned _ st | Aborted st | Exited _ st => Some st
  | OutOfFuel => None
  end.

(** ** The log readers *)

Inductive OBSLogType : Set := Errors | Warnings | General.

(** [RequestOBSLog]: the json value returned and the globals afterwards.
    The [while] loop of the [General] case pops the queue until it is
    empty, pushing each front element. *)
Definition RequestOBSLog (type : OBSLogType) (st : State) : json * State :=
  match type with
  | Errors => (json_of_messages (obs_log_errors st), st)
  | Warnings => (json_of_messages (obs_log_warnings st), st)
  | General =>
      (json_of_messages (obs_log_general st), set_obs_log_general [] st)
  end.

Definition ComputeBreadcrumbs (st : State) : json :=
  json_of_messages (breadcrumbs st).

Definition ComputeWarnings (st : State) : json :=
  json_of_messages (warnings st).

(** [RequestProcessList]: the number 1 when [EnumProcesses] fails,
    otherwise an object with one pair per process that has a non-zero
    identifier and could be inspected. *)
Definition RequestProcessList (rt : Runtime) : json :=
  match process_table rt with
  | None => JNum 1
  | Some procs =>
      fold_left
        (fun acc (p : Z * option string) =>
           if fst p =? 0 then acc
           else match snd p with
                | Some name =>
                    json_push_back_pair acc name (JStr (to_string (fst p)))
                | None => acc
                end)
        procs (JObj [])
  end.

(** [GetUserInfo(computerName)] on the empty string that [HandleCrash]
    declares: the name, or the string left empty when the query fails. *)
Definition GetUserInfo (rt : Runtime) : string :=
  match computer_name rt with
  | Some name => name
  | None => ""
  end.

(** [SetupCrashpad] of a release build. *)
Definition SetupCrashpad (rt : Runtime) (st : State) : bool * State :=
  let args := (arguments st ++ ["--no-rate-limit"])%list in
  if negb (database_ok rt) then (false, set_crashpad args (start_requests st) st)
  else
    let st' :=
      set_crashpad args (start_requests st ++ [(annotations st, args)])%list st in
    if negb (start_handler_ok rt) then (false, st')
    else if negb (wait_handler_ok rt) then (false, st')
    else (true, st').

(** ** HandleCrash, HandleExit and TryHandleCrash *)

(** [annotations.insert({{key, value}})]: [std::map::insert] adds the pair
    when the key is absent and leaves the map as it is otherwise. *)
Definition std_map_insert (key value : string) (m : gmap string string)
  : gmap string string :=
  match m !! key with
  | Some _ => m
  | None => <[key := value]> m
  end.

(** One statement of the report assembly: the globals after it, or [None]
    when an exception leaves the statement. *)
Definition Step : Type := State -> option State.

Definition annotate (key value : string) : Step :=
  fun st => Some (set_annotations (std_map_insert key value (annotations st)) st).

(** An annotation whose value is a [PrettyBytes] text followed by [rest]. *)
Definition annotate_bytes (rt : Runtime) (key : string) (bytes : Z)
  (rest : string) : Step :=
  fun st =>
    match Bytes.PrettyBytes (printf_ties rt) (Bytes.to_uint64 bytes) with
    | Some text => annotate key (text +:+ rest) st
    | None => None
    end.

(** An annotation whose value is a json value handed over as it is: the
    pair of strings is built through the json library's conversion. *)
Definition annotate_json (rt : Runtime) (key : string) (value : json) : Step :=
  fun st =>
    match json_as_string rt value with
    | Some text => annotate key text st
    | None => None
    end.

(** The sixteen [annotations.insert] statements of [HandleCrash], in
    program order.  What precedes them (the call stack, the usage figures,
    the computer name, the elapsed time) only reads the runtime, so these
    locals are computed here. *)
Definition insert_steps (rt : Runtime) (_crashInfo : string) : list Step :=
  let callStack := fst (Rewind.RewindCallStack rt 0 "") in
  let computerName := GetUserInfo rt in
  [ annotate "Time elapsed: " (to_string (elapsed_seconds rt) +:+ "s");
    (fun st =>
       annotate "Status"
                (if obs_active st then "initialized" else "shutdown") st);
    annotate "Leaks" (to_string (bnum_allocs rt));
    annotate_bytes rt "Total memory" (totalPhysMem rt) "";
    annotate_bytes rt "Total used memory" (physMemUsed rt)
      (" - percentage: "
       +:+ ratio_text rt (physMemUsed rt) (totalPhysMem rt) +:+ "%");
    annotate_bytes rt "Total SLOBS memory" (physMemUsedByMe rt)
      (" - percentage: "
       +:+ ratio_text rt (physMemUsedByMe rt) (totalPhysMem rt) +:+ "%");
    annotate "CPU usage" (to_string (int_of_double (totalCPUUsed rt)) +:+ "%");
    (fun st =>
       let '(log, st') := RequestOBSLog Errors st in
       annotate "OBS errors" (dump4 rt log) st');
    (fun st =>
       let '(log, st') := RequestOBSLog Warnings st in
       annotate "OBS warnings" (dump4 rt log) st');
    (fun st =>
       let '(log, st') := RequestOBSLog General st in
       annotate "OBS log general" (dump4 rt log) st');
    annotate "Process List" (dump4 rt (RequestProcessList rt));
    annotate "Manual callstack" (dump4 rt callStack);
    annotate "Crash reason" _crashInfo;
    annotate "Computer name" computerName;
    (fun st => annotate_json rt "Breadcrumbs" (ComputeBreadcrumbs st) st);
    (fun st => annotate_json rt "Warnings" (ComputeWarnings st) st) ].

(** The statements of [HandleCrash] between the setting of the latch and
    the test of [callAbort]: the inserts, then [SetupCrashpad()], whose
    result is dropped. *)
Definition report_steps (rt : Runtime) (_crashInfo : string) : list Step :=
  (insert_steps rt _crashInfo
     ++ [fun st => Some (snd (SetupCrashpad rt st))])%list.

(** A process that has reached [abort()] stays there, also when the crash
    hook that led to it is written as if it could return. *)
Definition then_abort (o : Outcome unit) : Outcome unit :=
  match o with
  | Returned _ st => Aborted st
  | other => other
  end.

(** Runs the statements in order.  [crash_hook reason] is what a fault
    makes the process enter.  A fault can come from outside, named by
    [fault_at] as the position of the statement it interrupts together
    with the reason its hook passes (the unhandled exception filter); or a
    statement raises an exception, which leaves the [noexcept] function
    and so reaches [std::terminate], whose handler passes its own
    reason. *)
Fixpoint run_steps (crash_hook : string -> State -> Outcome unit)
  (fault_at : option (nat * string)) (pos : nat) (steps : list Step)
  (st : State) : Outcome unit :=
  match steps with
  | [] => Returned tt st
  | step :: steps' =>
      match fault_at with
      | Some (k, reason) =>
          if (k =? pos)%nat then then_abort (crash_hook reason st)
          else
            match step st with
            | None =>
                then_abort (crash_hook "Direct call to std::terminate" st)
            | Some st' => run_steps crash_hook fault_at (S pos) steps' st'
            end
      | None =>
          match step st with
          | None => then_abort (crash_hook "Direct call to std::terminate" st)
          | Some st' => run_steps crash_hook fault_at (S pos) steps' st'
          end
      end
  end.

(** [HandleCrash(_crashInfo, callAbort)] of a release build.  [faults]
    lists the outside faults still to come, the first one for this
    invocation and the following ones for the invocations entered from
    within it; [fuel] bounds how deep such invocations may nest. *)
Fixpoint HandleCrash_fuel (fuel : nat) (rt : Runtime)
  (faults : list (nat * string)) (_crashInfo : string) (callAbort : bool)
  (st : State) : Outcome unit :=
  match fuel with
  | O => OutOfFuel
  | S fuel' =>
      if insideCrashMethod st then Aborted st
      else
        let st1 := set_insideCrashMethod true st in
        bind (run_steps
                (fun reason s =>
                   HandleCrash_fuel fuel' rt (tl faults) reason true s)
                (head faults) 0 (report_steps rt _crashInfo) st1)
             (fun _ st2 =>
                if callAbort then Aborted st2
                else Returned tt (set_insideCrashMethod false st2))
  end.

(** Two levels are all that is ever used: an invocation entered from
    within [HandleCrash] finds the latch set (see [HandleCrash_fuel_enough]). *)
Definition HandleCrash (rt : Runtime) (faults : list (nat * string))
  (_crashInfo : string) (callAbort : bool) (st : State) : Outcome unit :=
  HandleCrash_fuel 2 rt faults _crashInfo callAbort st.

(** [HandleExit]. *)
Definition HandleExit (rt : Runtime) (faults : list (nat * string))
  (st : State) : Outcome unit :=
  if obs_active st then HandleCrash rt faults "AtExit" false st
  else Returned tt st.

(** [exit(code)]: the handlers registered with [std::atexit] run, here
    [HandleExit], and the process ends with [code]. *)
Definition process_exit (rt : Runtime) (faults : list (nat * string))
  (code : Z) (st : State) : Outcome bool :=
  bind (HandleExit rt faults st) (fun _ st' => Exited code st').

(** The [for] loop at the head of [TryHandleCrash], with its [break]. *)
Fixpoint crashIsHandled (handled : list string) (_format : string) : bool :=
  match handled with
  | [] => false
  | handledCrashes :: rest =>
      match Str.find _format handledCrashes with
      | Some _ => true
      | None => crashIsHandled rest _format
      end
  end.

(** [TryHandleCrash(_format, _crashMessage)].  [destroyOBS_API] is the
    engine's shutdown, [None] when it throws. *)
Definition TryHandleCrash (rt : Runtime)
  (destroyOBS_API : State -> option State) (faults : list (nat * string))
  (_format _crashMessage : string) (st : State) : Outcome bool :=
  if negb (crashIsHandled (handledOBSCrashes st) _format)
  then Returned false st
  else
    match destroyOBS_API st with
    | Some st' => process_exit rt faults 0 st'
    | None =>
        bind (HandleCrash rt faults _crashMessage true st)
             (fun _ st' => Returned true st')
    end.

(** ** A process run: the faults that reach the crash hook one after the
    other, as long as the process is alive *)

Fixpoint handle_faults (rt : Runtime)
  (incoming : list (list (nat * string) * string)) (st : State)
  : Outcome unit :=
  match incoming with
  | [] => Returned tt st
  | (faults, reason) :: later =>
      bind (HandleCrash rt faults reason true st)
           (fun _ st' => handle_faults rt later st')
  end.

(** The globals after the first [n] statements of a list, when none of
    them raised. *)
Fixpoint steps_prefix (n : nat) (steps : list Step) (st : State)
  : option State :=
  match n, steps with
  | O, _ => Some st
  | S n', step :: steps' =>
      match step st with
      | Some st' => steps_prefix n' steps' st'
      | None => None
      end
  | S _, [] => None
  end.

(** The keys of the sixteen inserts, in program order. *)
Definition report_keys : list string :=
  [ "Time elapsed: "; "Status"; "Leaks"; "Total memory"; "Total used memory";
    "Total SLOBS memory"; "CPU usage"; "OBS errors"; "OBS warnings";
    "OBS log general"; "Process List"; "Manual callstack"; "Crash reason";
    "Computer name"; "Breadcrumbs"; "Warnings" ].

(** What a statement of the assembly may change: it adds one pair under
    [key], by [std::map::insert], and leaves the latch, the breadcrumbs,
    the warnings, the engine state and crashpad's record alone. *)
Definition inserts (info : string) (key : string) (step : Step) : Prop :=
  forall st st', step st = Some st' ->
    (exists v, annotations st' = std_map_insert key v (annotations st)
               /\ (key = "Crash reason" -> v = info))
    /\ insideCrashMethod st' = insideCrashMethod st
    /\ breadcrumbs st' = breadcrumbs st
    /\ warnings st' = warnings st
    /\ obs_active st' = obs_active st
    /\ start_requests st' = start_requests st.

(** A statement that leaves the latch as it is and only adds to the map. *)
Definition keeps_latch (step : Step) : Prop :=
  forall st st', step st = Some st' ->
                 insideCrashMethod st' = insideCrashMethod st
                 /\ annotations st ⊆ annotations st'.

(** The keys that the specification lists as the report's contract, the
    product name being SLOBS. *)
Definition contract_keys : list string :=
  [ "Time elapsed"; "Status"; "Leaks"; "Total memory"; "Total used memory";
    "Total SLOBS memory"; "CPU usage"; "OBS errors"; "OBS warnings";
    "OBS log general"; "Process List"; "Manual callstack"; "Crash reason";
    "Computer name"; "Breadcrumbs"; "Warnings" ].

(** ** The globals between two calls of the crash manager *)


(** ** Sample inputs *)

Module Sample.

(** A compact rendering standing in for [json::dump(4)]. *)
Fixpoint show (j : json) : string :=
  match j with
  | JNull => "null"
  | JBool b => if b then "true" else "false"
  | JNum n => to_string n
  | JStr s => "'" +:+ s +:+ "'"
  | JArr items =>
      "[" +:+ String.concat "," (map show items) +:+ "]"
  | JObj fields =>
      "{" +:+ String.concat ","
                (map (fun kv => fst kv +:+ ":" +:+ show (snd kv)) fields)
          +:+ "}"
  end.

(** Ten captured frames at the addresses 100 to 109; the symbols of the
    frames 3, 4 and 5 cannot be resolved. *)
Definition symbol_of (address : Z) : option (string * Z) :=
  if (103 <=? address) && (address <=? 105) then None
  else Some ("frame" +:+ to_string (address - 100), 4096 + address).

Definition line_of (address : Z) : option (string * Z) :=
  Some ("C:\src\main.cpp", address).

Definition runtime : Runtime :=
  {| capture_available := true;
     return_addresses := [100; 101; 102; 103; 104; 105; 106; 107; 108; 109];
     SymFromAddr := symbol_of;
     SymGetLineFromAddr64 := line_of;
     pointer_text := fun a => "00007FF6A1B2C" +:+ to_string a;
     totalPhysMem := 17179869184;
     physMemUsed := 8589934592;
     physMemUsedByMe := 1610612736;
     totalCPUUsed := 25 # 2;
     ratio_text := fun _ _ => "0.500000";
     computer_name := Some "STUDIO-PC";
     process_table := Some [(0, None); (4, None); (812, Some "obs64.exe")];
     elapsed_seconds := 3600;
     bnum_allocs := 7;
     database_ok := true;
     start_handler_ok := true;
     wait_handler_ok := true;
     dump4 := show;
     printf_ties := Bytes.TiesToEven;
     json_as_string := nlohmann_as_string |}.

(** The globals of a process that was initialised, recorded two
    breadcrumbs and still has the engine running. *)
Definition state : State :=
  {| insideCrashMethod := false;
     annotations := ∅;
     arguments := ["--no-rate-limit"];
     start_requests := [(∅, ["--no-rate-limit"])];
     breadcrumbs := ["startup"; "scene loaded"];
     warnings := [];
     handledOBSCrashes := ["Failed to recreate D3D11"];
     obs_log_errors := ["e1"];
     obs_log_warnings := ["w1"; "w2"];
     obs_log_general := ["g1"; "g2"; "g3"];
     obs_active := true |}.

(** The globals in which the sample report ends. *)
Definition report_first : State :=
  Eval vm_compute in
    match final_state (HandleCrash runtime [] "boom" true state) with
    | Some s => s
    | None => state
    end.

End Sample.

(** * The rest of the file *)

(** ** FormatVAString *)

Module Format.

(** [temp.resize(n)]: cut to [n] elements, or grown with zero characters. *)
Definition resize (temp : list ascii) (n : nat) : list ascii :=
  (firstn n temp ++ repeat zero (n - List.length temp))%list.

(** [std::vsnprintf(temp.data(), temp.size(), format, args)] on a buffer of
    at least one element.  [expanded] is the text that the format and the
    arguments expand to, [None] when the expansion fails.  The call writes
    as much of the text as fits before a terminating zero and returns the
    length of the whole text, or a negative number on failure. *)
Definition vsnprintf (expanded : option string) (temp : list ascii)
  : Z * list ascii :=
  match expanded with
  | None => (-1, temp)
  | Some text =>
      let written :=
        firstn (List.length temp - 1) (list_ascii_of_string text) in
      (Z.of_nat (String.length text),
       (written ++ zero :: skipn (S (List.length written)) temp)%list)
  end.

(** How [FormatVAString] ends: with the string, or by throwing
    [std::runtime_error].  [Unfinished] belongs to the model: the turns
    allowed for the loop were used up. *)
Inductive result : Type :=
| Formatted (text : string)
| Thrown
| Unfinished.

(** The loop [while (temp.size() <= length)] and the [return] after it.
    [std::string{temp.data(), length}] copies [length] characters, which
    the exit condition keeps inside the buffer.  Every turn expands the
    same arguments: on the Windows targets of the release build a
    [va_list] is a plain pointer passed by value, which a call of
    [vsnprintf] does not use up. *)
Fixpoint format_loop (fuel : nat) (expanded : option string)
  (temp : list ascii) (length : nat) : result :=
  if (List.length temp <=? length)%nat then
    match fuel with
    | O => Unfinished
    | S fuel' =>
        let temp1 := resize temp (length + 1) in
        let '(status, temp2) := vsnprintf expanded temp1 in
        if status <? 0 then Thrown
        else format_loop fuel' expanded temp2 (Z.to_nat status)
    end
  else Formatted (string_of_list_ascii (firstn length temp)).

(** [FormatVAString(format, args)]: the buffer starts empty and [length]
    at 63. *)
Definition FormatVAString_fuel (fuel : nat) (expanded : option string)
  : result :=
  format_loop fuel expanded [] 63.

(** Two turns are all the loop ever takes (see [FormatVAString_complete]). *)
Definition FormatVAString (expanded : option string) : result :=
  FormatVAString_fuel 2 expanded.

End Format.

(** ** The crash hooks that [Initialize] installs *)

(** The handler given to [base_set_crash_handler]: the message is
    formatted, and unless [TryHandleCrash] deals with the crash the report
    is filed.  [None] stands for an exception of [FormatVAString] leaving
    the handler towards the engine code that called it, which is outside
    this file. *)
Definition obs_crash_handler (rt : Runtime)
  (destroyOBS_API : State -> option State) (faults : list (nat * string))
  (format : string) (expanded : option string) (st : State)
  : option (Outcome unit) :=
  match Format.FormatVAString expanded with
  | Format.Formatted errorMessage =>
      Some (bind (TryHandleCrash rt destroyOBS_API faults format
                                 errorMessage st)
                 (fun handled st' =>
                    if negb handled
                    then HandleCrash rt faults errorMessage true st'
                    else Returned tt st'))
  | Format.Thrown => None
  | Format.Unfinished => Some OutOfFuel
  end.

(** The handler given to [std::set_terminate]. *)
Definition terminate_handler (rt : Runtime) (faults : list (nat * string))
  (st : State) : Outcome unit :=
  HandleCrash rt faults "Direct call to std::terminate" true st.

(** The filter given to [SetUnhandledExceptionFilter]; it returns
    [EXCEPTION_CONTINUE_SEARCH] in both branches. *)
Definition unhandled_exception_filter (rt : Runtime)
  (IsDebuggerPresent : bool) (faults : list (nat * string)) (st : State)
  : Outcome unit :=
  if IsDebuggerPresent then Returned tt st
  else HandleCrash rt faults "UnhandledExceptionFilter" true st.

(** ** Configure and the diagnostic log *)

Definition set_handledOBSCrashes (l : list string) (st : State) : State :=
  {| insideCrashMethod := insideCrashMethod st;
     annotations := annotations st;
     arguments := arguments st;
     start_requests := start_requests st;
     breadcrumbs := breadcrumbs st;
     warnings := warnings st;
     handledOBSCrashes := l;
     obs_log_errors := obs_log_errors st;
     obs_log_warnings := obs_log_warnings st;
     obs_log_general := obs_log_general st;
     obs_active := obs_active st |}.

Definition set_breadcrumbs (l : list string) (st : State) : State :=
  {| insideCrashMethod := insideCrashMethod st;
     annotations := annotations st;
     arguments := arguments st;
     start_requests := start_requests st;
     breadcrumbs := l;
     warnings := warnings st;
     handledOBSCrashes := handledOBSCrashes st;
     obs_log_errors := obs_log_errors st;
     obs_log_warnings := obs_log_warnings st;
     obs_log_general := obs_log_general st;
     obs_active := obs_active st |}.

Definition set_warnings (l : list string) (st : State) : State :=
  {| insideCrashMethod := insideCrashMethod st;
     annotations := annotations st;
     arguments := arguments st;
     start_requests := start_requests st;
     breadcrumbs := breadcrumbs st;
     warnings := l;
     handledOBSCrashes := handledOBSCrashes st;
     obs_log_errors := obs_log_errors st;
     obs_log_warnings := obs_log_warnings st;
     obs_log_general := obs_log_general st;
     obs_active := obs_active st |}.

(** [Configure]: one signature is pushed. *)
Definition Configure (st : State) : State :=
  set_handledOBSCrashes
    (handledOBSCrashes st ++ ["Failed to recreate D3D11"])%list st.

(** [AddWarning], [AddBreadcrumb] and [ClearBreadcrumbs], each run under
    the lock [messageMutex], hence as one step. *)
Definition AddWarning (warning : string) (st : State) : State :=
  set_warnings (warnings st ++ [warning])%list st.

Definition AddBreadcrumb (message : string) (st : State) : State :=
  set_breadcrumbs (breadcrumbs st ++ [message])%list st.

Definition ClearBreadcrumbs (st : State) : State :=
  set_breadcrumbs [] st.

(** ** IPCValuesToData *)

(** An [ipc::value] by its [type] tag.  The two floating-point kinds carry
    the number they hold; a binary value carries its bytes. *)
Inductive ipc_value : Type :=
| IpcNull
| IpcFloat (fp32 : Q)
| IpcDouble (fp64 : Q)
| IpcInt32 (i32 : Z)
| IpcInt64 (i64 : Z)
| IpcUInt32 (ui32 : Z)
| IpcUInt64 (ui64 : Z)
| IpcString (value_str : string)
| IpcBinary (bytes : string).

(** The text pushed for one value; [fp_text] is [std::to_string] on a
    floating-point number. *)
Definition ipc_text (fp_text : Q -> string) (value : ipc_value) : string :=
  match value with
  | IpcNull => "null"
  | IpcFloat x => fp_text x
  | IpcDouble x => fp_text x
  | IpcInt32 z | IpcInt64 z | IpcUInt32 z | IpcUInt64 z => to_string z
  | IpcString s => s
  | IpcBinary _ => ""
  end.

(** [data.push_back({name, text})], a braced list of two strings: an
    object takes it as a pair, added unless the key exists; null and an
    array take it as a two-element array appended at the end; any other
    kind of value makes the library raise, [None] here. *)
Definition json_push_back_braced (data : json) (name text : string)
  : option json :=
  match data with
  | JObj _ => Some (json_push_back_pair data name (JStr text))
  | JNull | JArr _ =>
      Some (json_push_back data (JArr [JStr name; JStr text]))
  | _ => None
  end.

(** The loop of [IPCValuesToData], [paramCounter] being the third
    argument. *)
Fixpoint IPCValuesToData_from (fp_text : Q -> string)
  (values : list ipc_value) (paramCounter : Z) (data : json) : option json :=
  match values with
  | [] => Some data
  | value :: rest =>
      match json_push_back_braced data ("arg" +:+ to_string paramCounter)
                                  (ipc_text fp_text value) with
      | Some data' => IPCValuesToData_from fp_text rest (paramCounter + 1) data'
      | None => None
      end
  end.

Definition IPCValuesToData (fp_text : Q -> string) (values : list ipc_value)
  (data : json) : option json :=
  IPCValuesToData_from fp_text values 0 data.

(** The element that the loop appends to an array for the value at
    position [i]. *)
Definition ipc_entry (fp_text : Q -> string) (i : Z) (value : ipc_value)
  : json :=
  JArr [JStr ("arg" +:+ to_string i); JStr (ipc_text fp_text value)].

(** The elements for a run of values, the first at position [i]. *)
Fixpoint ipc_entries (fp_text : Q -> string) (i : Z)
  (values : list ipc_value) : list json :=
  match values with
  | [] => []
  | value :: rest =>
      ipc_entry fp_text i value :: ipc_entries fp_text (i + 1) rest
  end.

(** ** Reading the values that the code builds *)

(** The value under [key] in a json object. *)
Definition json_lookup (key : string) (j : json) : option json :=
  match j with
  | JObj fields =>
      match List.find (fun kv => String.eqb (fst kv) key) fields with
      | Some kv => Some (snd kv)
      | None => None
      end
  | _ => None
  end.

(** The identifier of the first process of the table that has a non-zero
    identifier and the module name [name]. *)
Definition first_pid (procs : list (Z * option string)) (name : string)
  : option Z :=
  match List.find
          (fun p : Z * option string =>
             negb (fst p =? 0)
             && match snd p with
                | Some n => String.eqb n name
                | None => false
                end) procs with
  | Some p => Some (fst p)
  | None => None
  end.

(** A statement of the assembly that leaves the diagnostic log, the
    signatures, the engine's state and its error and warning buffers
    alone, and the general queue as it is or empty. *)
Definition leaves_logs (step : Step) : Prop :=
  forall st st', step st = Some st' ->
    breadcrumbs st' = breadcrumbs st
    /\ warnings st' = warnings st
    /\ handledOBSCrashes st' = handledOBSCrashes st
    /\ obs_log_errors st' = obs_log_errors st
    /\ obs_log_warnings st' = obs_log_warnings st
    /\ obs_active st' = obs_active st
    /\ (obs_log_general st' = obs_log_general st \/ obs_log_general st' = []).

(** A statement of the assembly that leaves crashpad alone: the handler's
    arguments and the record of its starts. *)
Definition leaves_crashpad (step : Step) : Prop :=
  forall st st', step st = Some st' ->
    arguments st' = arguments st /\ start_requests st' = start_requests st.

(** [n] calls of [SetupCrashpad] in a row. *)
Fixpoint SetupCrashpad_times (n : nat) (rt : Runtime) (st : State) : State :=
  match n with
  | O => st
  | S n' => SetupCrashpad_times n' rt (snd (SetupCrashpad rt st))
  end.

(** One turn of the loop of [RequestProcessList]. *)
Definition process_step (acc : json) (p : Z * option string) : json :=
  if fst p =? 0 then acc
  else match snd p with
       | Some name => json_push_back_pair acc name (JStr (to_string (fst p)))
       | None => acc
       end.


(** What an entry of [RewindCallStack] can be: the entry of a frame of the
    loop's range that resolved outside the crash manager's file, with an
    attribute, if it has one, that names a frame above it which did not
    resolve. *)
Definition entry_of_frame (rt : Runtime) (skip : Z) (e : Rewind.frame_entry)
  : Prop :=
  exists (i : nat) (n : string) (sa : Z) (p : string) (l : Z),
    skip <= Z.of_nat i
    /\ (i < Rewind.frames rt)%nat
    /\ Rewind.resolution rt i = Some (n, sa, p, l)
    /\ Rewind.fn_name e = n
    /\ Rewind.filename e = Rewind.file_of_path p
    /\ Rewind.filename e <> "util-crashmanager.cpp"
    /\ Rewind.lineno e = l
    /\ Rewind.symbol_addr e = "0x" +:+ Str.tolower (to_string sa)
    /\ (Rewind.frames_omitted e = None
        \/ exists j : nat,
             Rewind.frames_omitted e
             = Some (to_string (Z.of_nat j), to_string (Z.of_nat i))
             /\ (i < j < Rewind.frames rt)%nat
             /\ Rewind.resolution rt j = None).

(** The attributes of an entry that are computed from its function name
    and its symbol address alone: the mark of library code, and the
    address as a decimal numeral behind the prefix "0x". *)
Definition entry_marks (e : Rewind.frame_entry) : Prop :=
  Rewind.in_app e
  = (if Str.starts_with "std::" (Rewind.fn_name e)
        || Str.starts_with "__" (Rewind.fn_name e)
     then Some false else None)
  /\ exists sa : Z, Rewind.symbol_addr e = "0x" +:+ to_string sa.

(** The json value of the "frames omitted" attribute. *)
Definition omitted_json (range : string * string) : json :=
  JArr [JStr (fst range); JStr (snd range)].

(** * The display registry (nodeobs_common.cpp) *)

Module Content.

(** The six colours of a display that the file sets. *)
Inductive color_target : Set :=
| PaddingColor
| BackgroundColor
| OutlineColor
| GuidelineColor
| ResizeBoxOuterColor
| ResizeBoxInnerColor.

(** The calls that the file makes on an [OBS::Display], with the argument
    values it passes. *)
Inductive display_call : Type :=
| SetSize (width height : Z)
| SetPosition (x y : Z)
| SetPaddingSize (size : Z)
| SetColor (target : color_target) (r g b a : Z)
| SetDrawUI (drawUI : bool)
| SetDrawGuideLines (drawGuideLines : bool).

(** An [OBS::Display] as this file sees it: the arguments of its
    constructor and the calls it has received since, oldest first.  The
    class itself is declared elsewhere. *)
Record Display : Type := {
  windowHandle : Z;
  sourceName : option string;
  received : list display_call
}.

Definition new_Display (handle : Z) (source : option string) : Display :=
  {| windowHandle := handle; sourceName := source; received := [] |}.

Definition receive (c : display_call) (d : Display) : Display :=
  {| windowHandle := windowHandle d;
     sourceName := sourceName d;
     received := (received d ++ [c])%list |}.

(** The global [displays] is a map in which every key owns the object made
    for it.  The common shape of the setters: [displays.find(key)], a plain
    [return] when the key is unknown, the call on the display otherwise. *)
Definition on_display (key : string) (c : display_call)
  (displays : gmap string Display) : gmap string Display :=
  match displays !! key with
  | None => displays
  | Some d => <[key := receive c d]> displays
  end.

(** [OBS_content_createDisplay]; [handle] is the [uint64_t] read from the
    first argument's bytes. *)
Definition OBS_content_createDisplay (handle : Z) (key : string)
  (displays : gmap string Display) : gmap string Display :=
  match displays !! key with
  | Some _ => displays
  | None => <[key := new_Display handle None]> displays
  end.

Definition OBS_content_destroyDisplay (key : string)
  (displays : gmap string Display) : gmap string Display :=
  match displays !! key with
  | None => displays
  | Some _ => delete key displays
  end.

Definition OBS_content_createSourcePreviewDisplay (handle : Z)
  (source key : string) (displays : gmap string Display)
  : gmap string Display :=
  match displays !! key with
  | Some _ => displays
  | None => <[key := new_Display handle (Some source)]> displays
  end.

(** [int width = args[1].value.ui32]: the unsigned argument read as an
    [int]. *)
Definition OBS_content_resizeDisplay (key : string) (width height : Z)
  (displays : gmap string Display) : gmap string Display :=
  on_display key
    (SetSize (Rewind.int_of_uint32 width) (Rewind.int_of_uint32 height))
    displays.

Definition OBS_content_moveDisplay (key : string) (x y : Z)
  (displays : gmap string Display) : gmap string Display :=
  on_display key
    (SetPosition (Rewind.int_of_uint32 x) (Rewind.int_of_uint32 y)) displays.

Definition OBS_content_setPaddingSize (key : string) (size : Z)
  (displays : gmap string Display) : gmap string Display :=
  on_display key (SetPaddingSize size) displays.

(** [(uint8_t)(v)] for an unsigned 32-bit [v]. *)
Definition uint8_of_uint32 (v : Z) : Z := v mod 256.

(** The alpha byte,
    [if (a != NULL) c[3] = (uint8_t)(a * 255.0); else c[3] = 255;]
    for the unsigned 32-bit argument [a].  The product is formed in
    [double], exactly; a conversion of a floating-point value to [uint8_t]
    is defined only when the value fits, so [None] stands for a product
    above 255. *)
Definition alpha_byte (a : Z) : option Z :=
  if a =? 0 then Some 255
  else
    let product := a * 255 in
    if product <? 256 then Some product else None.

(** The six colour setters, which differ in the method they call.  The
    colour is computed before the display is looked up, from the five
    arguments that the functions read without checking their number. *)
Definition set_color (target : color_target) (key : string) (r g b a : Z)
  (displays : gmap string Display) : option (gmap string Display) :=
  match alpha_byte a with
  | None => None
  | Some alpha =>
      Some (on_display key
              (SetColor target (uint8_of_uint32 r) (uint8_of_uint32 g)
                        (uint8_of_uint32 b) alpha)
              displays)
  end.

Definition OBS_content_setPaddingColor := set_color PaddingColor.
Definition OBS_content_setBackgroundColor := set_color BackgroundColor.
Definition OBS_content_setOutlineColor := set_color OutlineColor.
Definition OBS_content_setGuidelineColor := set_color GuidelineColor.
Definition OBS_content_setResizeBoxOuterColor := set_color ResizeBoxOuterColor.
Definition OBS_content_setResizeBoxInnerColor := set_color ResizeBoxInnerColor.

(** [(bool)args[1].value.i64] and [(bool)args[1].value.i32]. *)
Definition OBS_content_setShouldDrawUI (key : string) (value : Z)
  (displays : gmap string Display) : gmap string Display :=
  on_display key (SetDrawUI (negb (value =? 0))) displays.

Definition OBS_content_setDrawGuideLines (key : string) (value : Z)
  (displays : gmap string Display) : gmap string Display :=
  on_display key (SetDrawGuideLines (negb (value =? 0))) displays.

(** A call of one of the functions above. *)
Inductive request : Type :=
| CreateDisplay (handle : Z) (key : string)
| DestroyDisplay (key : string)
| CreateSourcePreviewDisplay (handle : Z) (source key : string)
| ResizeDisplay (key : string) (width height : Z)
| MoveDisplay (key : string) (x y : Z)
| PaddingSize (key : string) (size : Z)
| Color (target : color_target) (key : string) (r g b a : Z)
| ShouldDrawUI (key : string) (value : Z)
| DrawGuideLines (key : string) (value : Z).

Definition request_key (q : request) : string :=
  match q with
  | CreateDisplay _ key | DestroyDisplay key
  | CreateSourcePreviewDisplay _ _ key | ResizeDisplay key _ _
  | MoveDisplay key _ _ | PaddingSize key _ | Color _ key _ _ _ _
  | ShouldDrawUI key _ | DrawGuideLines key _ => key
  end.

(** Whether the request is one of the two creations or the destruction. *)
Definition changes_registry (q : request) : bool :=
  match q with
  | CreateDisplay _ _ | DestroyDisplay _ | CreateSourcePreviewDisplay _ _ _ =>
      true
  | _ => false
  end.

Definition serve (q : request) (displays : gmap string Display)
  : option (gmap string Display) :=
  match q with
  | CreateDisplay handle key =>
      Some (OBS_content_createDisplay handle key displays)
  | DestroyDisplay key => Some (OBS_content_destroyDisplay key displays)
  | CreateSourcePreviewDisplay handle source key =>
      Some (OBS_content_createSourcePreviewDisplay handle source key displays)
  | ResizeDisplay key width height =>
      Some (OBS_content_resizeDisplay key width height displays)
  | MoveDisplay key x y => Some (OBS_content_moveDisplay key x y displays)
  | PaddingSize key size =>
      Some (OBS_content_setPaddingSize key size displays)
  | Color target key r g b a => set_color target key r g b a displays
  | ShouldDrawUI key value =>
      Some (OBS_content_setShouldDrawUI key value displays)
  | DrawGuideLines key value =>
      Some (OBS_content_setDrawGuideLines key value displays)
  end.

End Content.

(** * Properties *)

Import Bytes Rewind.

(** ** PrettyBytes *)

Lemma double_of_uint64_bounds b :
  0 <= b < 2 ^ 64 -> 0 <= double_of_uint64 b < 2 ^ 70.
Proof.
  change (2 ^ 64) with 18446744073709551616.
  change (2 ^ 70) with 1180591620717411303424.
  intros [Hb0 Hb]. unfold double_of_uint64.
  destruct (Z.leb_spec (Z.log2 b - 52) 0) as [He|He]; [lia|].
  assert (Hbpos : 0 < b).
  { destruct (Z.eq_dec b 0) as [->|]; [simpl in He; lia|lia]. }
  set (e := Z.log2 b - 52) in *.
  assert (Hlog : Z.log2 b < 64) by (apply Z.log2_lt_pow2; [lia|exact Hb]).
  assert (He11 : e <= 11) by lia.
  assert (Hp : 0 < 2 ^ e) by (apply Z.pow_pos_nonneg; lia).
  assert (Hp11 : 2 ^ e <= 2048)
    by (change 2048 with (2 ^ 11); apply Z.pow_le_mono_r; lia).
  pose proof (Z.mul_div_le b (2 ^ e) Hp) as Hq.
  assert (Hq0 : 0 <= b / 2 ^ e) by (apply Z.div_pos; lia).
  assert (Hle : forall q', b / 2 ^ e <= q' <= b / 2 ^ e + 1 ->
                           0 <= q' * 2 ^ e < 1180591620717411303424).
  { intros q' [H1 H2]. split; [apply Z.mul_nonneg_nonneg; lia|].
    assert (q' * 2 ^ e <= (b / 2 ^ e + 1) * 2 ^ e)
      by (apply Z.mul_le_mono_nonneg_r; lia).
    nia. }
  apply Hle.
  repeat match goal with |- context [if ?c then _ else _] => destruct c end; lia.
Qed.

(** The loop never pushes [s] beyond 6 when the value is below [1024^7]. *)
Lemma suffix_loop_bound fuel : forall (count : Q) (s : Z),
  0 <= s <= 6 ->
  (count < inject_Z (1024 ^ (7 - s)))%Q ->
  0 <= snd (suffix_loop fuel count s) <= 6.
Proof.
  induction fuel as [|fuel IH]; intros count s Hs Hc; simpl; [lia|].
  destruct (Qle_bool 1024 count && (s <? 7)) eqn:Hg; simpl; [|lia].
  apply andb_true_iff in Hg as [Hge _]. apply Qle_bool_iff in Hge.
  assert (Hs6 : s <> 6).
  { intros ->. change (inject_Z (1024 ^ (7 - 6))) with (1024 # 1)%Q in Hc.
    change (inject_Z 1024) with (1024#1)%Q in *. lra. }
  apply IH; [lia|].
  replace (7 - s) with (Z.succ (7 - (s + 1))) in Hc by lia.
  rewrite Z.pow_succ_r in Hc by lia.
  rewrite inject_Z_mult in Hc.
  change (inject_Z 1024) with (1024#1)%Q in Hc.
  apply Qlt_shift_div_r; [reflexivity|].
  lra.
Qed.

(** With seven turns allowed the loop stops because its guard is false. *)
Lemma suffix_loop_guard fuel : forall (count : Q) (s : Z),
  (7 - s <= Z.of_nat fuel) ->
  let r := suffix_loop fuel count s in
  Qle_bool 1024 (fst r) && (snd r <? 7) = false.
Proof.
  induction fuel as [|fuel IH]; intros count s Hf; simpl.
  - destruct (Z.ltb_spec s 7); [lia|]. apply andb_false_r.
  - destruct (Qle_bool 1024 count && (s <? 7)) eqn:Hg; simpl; [|exact Hg].
    apply IH. lia.
Qed.

Lemma scaled_shift m n : scaled (m / 1024)%Q n = scaled m (S n).
Proof.
  unfold scaled. symmetry.
  exact (Nat.iter_succ_r n (fun c => c / 1024)%Q m).
Qed.

Lemma suffix_loop_scaled fuel : forall (count : Q) (s : Z),
  exists n : nat,
    suffix_loop fuel count s = (scaled count n, s + Z.of_nat n)
    /\ (n = 0%nat \/ (1 <= scaled count n)%Q).
Proof.
  induction fuel as [|fuel IH]; intros count s; simpl.
  - exists 0%nat. split; [f_equal; lia | now left].
  - destruct (Qle_bool 1024 count && (s <? 7)) eqn:Hg.
    + apply andb_true_iff in Hg as [Hge _]. apply Qle_bool_iff in Hge.
      destruct (IH (count / 1024)%Q (s + 1)) as (n & Heq & Hn).
      exists (S n). rewrite Heq, scaled_shift. split; [f_equal; lia|].
      right. destruct Hn as [-> | Hn].
      * unfold scaled; simpl. apply Qle_shift_div_l; [reflexivity|].
        change (inject_Z 1024) with (1024#1)%Q in *. lra.
      * now rewrite <- scaled_shift.
    + exists 0%nat. split; [f_equal; lia | now left].
Qed.

Lemma scaled_nonneg m n : (0 <= m)%Q -> (0 <= scaled m n)%Q.
Proof.
  intros Hm. induction n as [|n IH]; [exact Hm|].
  unfold scaled in *; simpl. apply Qle_shift_div_l; [reflexivity|]. lra.
Qed.

Lemma int_of_double_floor x : (0 <= x)%Q -> int_of_double x = Qfloor x.
Proof.
  destruct x as [a d]. unfold Qle, int_of_double, Qfloor; simpl. intros H.
  apply Z.quot_div_nonneg; lia.
Qed.

Lemma round_tenths_close tr (count : Q) :
  (inject_Z (round_tenths tr count) - (1#2) <= count * 10
   <= inject_Z (round_tenths tr count) + (1#2))%Q.
Proof.
  unfold round_tenths.
  set (x := (count * 10)%Q).
  pose proof (Qfloor_le x) as Hlo. pose proof (Qlt_floor x) as Hhi.
  rewrite inject_Z_plus in Hhi. change (inject_Z 1) with 1%Q in Hhi.
  destruct (Qcompare_spec (x - inject_Z (Qfloor x)) (1 # 2)) as [He|Hl|Hg].
  - destruct tr; [destruct (Z.even (Qfloor x))|];
      rewrite ?inject_Z_plus; change (inject_Z 1) with 1%Q; lra.
  - lra.
  - rewrite inject_Z_plus; change (inject_Z 1) with 1%Q; lra.
Qed.

Lemma sprintf_1f_shape tr (count : Q) :
  exists ip d : Z,
    0 <= d <= 9
    /\ sprintf_1f tr count = to_string ip +:+ "." +:+ to_string d
    /\ (inject_Z ip + inject_Z d / 10 - (1 # 20) <= count
        <= inject_Z ip + inject_Z d / 10 + (1 # 20))%Q.
Proof.
  exists (round_tenths tr count / 10), (round_tenths tr count mod 10).
  pose proof (Z.mod_pos_bound (round_tenths tr count) 10 eq_refl) as Hd.
  split; [lia|]. split; [reflexivity|].
  pose proof (round_tenths_close tr count) as Hc.
  rewrite (Z.div_mod (round_tenths tr count) 10) in Hc at 1 2 by lia.
  rewrite inject_Z_plus, inject_Z_mult in Hc.
  change (inject_Z 10) with 10%Q in Hc.
  set (a := inject_Z (round_tenths tr count / 10)) in *.
  set (b := inject_Z (round_tenths tr count mod 10)) in *.
  assert (Hb : (b / 10 == b * (1 # 10))%Q) by (unfold Qdiv; reflexivity).
  rewrite Hb. lra.
Qed.

Lemma is_whole_iff (count : Q) :
  is_whole count = true <-> (count == inject_Z (Qfloor count))%Q.
Proof.
  unfold is_whole. rewrite Qeq_bool_iff. split; intros H; lra.
Qed.

Lemma inject_Z_lt a b : a < b -> (inject_Z a < inject_Z b)%Q.
Proof. intros H. now rewrite <- Zlt_Qlt. Qed.

Lemma suffix_entry (s : Z) :
  0 <= s <= 6 -> exists suffix, nth_error suffixes (Z.to_nat s) = Some suffix.
Proof.
  intros Hs.
  destruct (nth_error suffixes (Z.to_nat s)) eqn:E; [eauto|].
  apply nth_error_None in E. simpl in E. lia.
Qed.

Lemma suffix_loop_in_bounds (tr : tie_rule) (bytes : Z) :
  0 <= bytes < 2 ^ 64 ->
  let r := suffix_loop 7 (inject_Z (double_of_uint64 bytes)) 0 in
  0 <= snd r <= 6
  /\ (scaled (inject_Z (double_of_uint64 bytes)) 6 < 1024)%Q
  /\ (fst r < 1024)%Q
  /\ (exists suffix, nth_error suffixes (Z.to_nat (snd r)) = Some suffix)
  /\ (exists text, PrettyBytes tr bytes = Some text).
Proof.
  intros Hb r.
  pose proof (double_of_uint64_bounds bytes Hb) as [Hm0 Hm].
  apply inject_Z_lt in Hm.
  assert (Hs : 0 <= snd r <= 6).
  { apply suffix_loop_bound; [lia|exact Hm]. }
  assert (Hg := suffix_loop_guard 7 (inject_Z (double_of_uint64 bytes)) 0
                  ltac:(simpl; lia)).
  fold r in Hg. cbv zeta in Hg.
  split; [exact Hs|]. split.
  { change (inject_Z (2 ^ 70)) with (1180591620717411303424 # 1)%Q in Hm.
    unfold scaled; simpl. unfold Qdiv.
    change (/ 1024)%Q with (1 # 1024)%Q. lra. }
  split.
  { apply andb_false_iff in Hg as [Hg|Hg].
    - apply Qnot_le_lt. intros Hle. apply Qle_bool_iff in Hle. congruence.
    - apply Z.ltb_ge in Hg. lia. }
  destruct (suffix_entry (snd r) Hs) as [suffix Hsuf].
  split; [eauto|].
  unfold PrettyBytes. fold r. destruct r as [count s]. simpl in Hsuf.
  rewrite Hsuf. destruct (is_whole count); eauto.
Qed.

Lemma PrettyBytes_total (tr : tie_rule) (z : Z) :
  exists text, PrettyBytes tr (to_uint64 z) = Some text.
Proof.
  destruct (suffix_loop_in_bounds tr (to_uint64 z)) as (_ & _ & _ & _ & H);
    [apply Z.mod_pos_bound; reflexivity | exact H].
Qed.

(** The guard [s < 7] alone would let the index reach 7: a value of
    [1024^7], which no 64-bit count converts to, gets there. *)
Example suffix_guard_alone_allows_seven :
  snd (suffix_loop 7 (inject_Z (2 ^ 70)) 0) = 7.
Proof. vm_compute. reflexivity. Qed.

(** C10.  For every 64-bit unsigned input the loop of [PrettyBytes] ends
    with a suffix index between 0 and 6: six divisions by 1024 always
    bring the value below 1024, so the loop stops on [count >= 1024]
    before the index leaves the seven-element array, both reads of
    [suffixes[s]] are inside it and [PrettyBytes] yields a text. *)
Theorem PrettyBytes_suffix_in_bounds (tr : tie_rule) (bytes : Z) :
  0 <= bytes < 2 ^ 64 ->
  let r := suffix_loop 7 (inject_Z (double_of_uint64 bytes)) 0 in
  0 <= snd r <= 6
  /\ (scaled (inject_Z (double_of_uint64 bytes)) 6 < 1024)%Q
  /\ (fst r < 1024)%Q
  /\ (exists suffix, nth_error suffixes (Z.to_nat (snd r)) = Some suffix)
  /\ (exists text, PrettyBytes tr bytes = Some text).
Proof. exact (suffix_loop_in_bounds tr bytes). Qed.

Lemma PrettyBytes_suffix_in_bounds_witness :
  0 <= 18446744073709551615 < 2 ^ 64
  /\ 0 <= snd (suffix_loop 7
                 (inject_Z (double_of_uint64 18446744073709551615)) 0) <= 6.
Proof.
  split; [lia|].
  apply (PrettyBytes_suffix_in_bounds TiesToEven 18446744073709551615). lia.
Defined.

(** C6.  [PrettyBytes] divides the count by 1024 until it is below 1024,
    takes the suffix b, kb, mb, gb, tb, pb, eb numbered by the divisions
    made, and prints the scaled value as a whole number when it is one and
    with one decimal place (the nearest tenth) otherwise; 0, 1024, 1536 and
    1073741824 give "0b", "1kb", "1.5kb" and "1gb". *)
Theorem PrettyBytes_format (tr : tie_rule) (bytes : Z) :
  0 <= bytes < 2 ^ 64 ->
  (PrettyBytes tr 0 = Some "0b"
   /\ PrettyBytes tr 1024 = Some "1kb"
   /\ PrettyBytes tr 1536 = Some "1.5kb"
   /\ PrettyBytes tr 1073741824 = Some "1gb")
  /\ exists (n : nat) (suffix : string),
       let count := scaled (inject_Z (double_of_uint64 bytes)) n in
       nth_error suffixes n = Some suffix
       /\ (n = 0%nat \/ (1 <= count)%Q)
       /\ (count < 1024)%Q
       /\ ((count == inject_Z (Qfloor count))%Q ->
           PrettyBytes tr bytes = Some (to_string (Qfloor count) +:+ suffix))
       /\ (~ (count == inject_Z (Qfloor count))%Q ->
           exists ip d : Z,
             0 <= d <= 9
             /\ PrettyBytes tr bytes
                = Some ((to_string ip +:+ "." +:+ to_string d) +:+ suffix)
             /\ (inject_Z ip + inject_Z d / 10 - (1 # 20) <= count
                 <= inject_Z ip + inject_Z d / 10 + (1 # 20))%Q).
Proof.
  intros Hb. split.
  { destruct tr; repeat split; vm_compute; reflexivity. }
  destruct (suffix_loop_in_bounds tr bytes Hb)
    as (Hs & _ & Hlt & [suffix Hsuf] & _).
  pose proof (double_of_uint64_bounds bytes Hb) as [Hm0 _].
  destruct (suffix_loop_scaled 7 (inject_Z (double_of_uint64 bytes)) 0)
    as (n & Hloop & Hn).
  unfold PrettyBytes. rewrite Hloop in *. simpl fst in *. simpl snd in *.
  replace (Z.to_nat (0 + Z.of_nat n)) with n in * by lia.
  exists n, suffix. cbv zeta. rewrite Hsuf.
  set (count := scaled (inject_Z (double_of_uint64 bytes)) n) in *.
  assert (Hc0 : (0 <= count)%Q).
  { apply scaled_nonneg. change 0%Q with (inject_Z 0). now rewrite <- Zle_Qle. }
  repeat split; try assumption.
  - intros Hw. apply is_whole_iff in Hw. rewrite Hw.
    unfold sprintf_d. now rewrite int_of_double_floor.
  - intros Hw. destruct (is_whole count) eqn:E.
    + apply is_whole_iff in E. contradiction.
    + destruct (sprintf_1f_shape tr count) as (ip & d & Hd & Htxt & Hclose).
      exists ip, d. rewrite Htxt. auto.
Qed.

Lemma PrettyBytes_format_witness :
  0 <= 1536 < 2 ^ 64 /\ PrettyBytes TiesToEven 1536 = Some "1.5kb".
Proof.
  split; [lia|].
  apply (PrettyBytes_format TiesToEven 1536). lia.
Defined.

(** ** The known-crash filter *)

Lemma starts_with_iff pat : forall s,
  Str.starts_with pat s = true <-> exists post, s = pat +:+ post.
Proof.
  induction pat as [|a pat IH]; intros s; simpl.
  - split; [intros _; exists s; reflexivity | reflexivity].
  - destruct s as [|b s].
    + split; [discriminate | intros [post H]; discriminate].
    + rewrite andb_true_iff, Ascii.eqb_eq, IH. split.
      * intros [-> [post ->]]. now exists post.
      * intros [post H]. injection H as -> ->. split; [reflexivity|now exists post].
Qed.

Lemma occurs_in_cons pat a s :
  Str.occurs_in pat (String a s)
  <-> Str.starts_with pat (String a s) = true \/ Str.occurs_in pat s.
Proof.
  unfold Str.occurs_in. rewrite starts_with_iff. split.
  - intros (pre & post & H). destruct pre as [|b pre]; simpl in H.
    + left. now exists post.
    + right. injection H as -> ->. now exists pre, post.
  - intros [[post H] | (pre & post & ->)].
    + exists "", post. exact H.
    + now exists (String a pre), post.
Qed.

Lemma occurs_in_empty pat :
  Str.occurs_in pat "" <-> Str.starts_with pat "" = true.
Proof.
  unfold Str.occurs_in. rewrite starts_with_iff. split.
  - intros (pre & post & H). destruct pre; [|discriminate]. now exists post.
  - intros [post H]. now exists "", post.
Qed.

Lemma find_from_iff pat : forall s pos,
  (exists p, Str.find_from pos s pat = Some p) <-> Str.occurs_in pat s.
Proof.
  induction s as [|a s IH]; intros pos; simpl.
  - rewrite occurs_in_empty.
    destruct (Str.starts_with pat ""); split; eauto; try discriminate.
    intros [p H]; discriminate.
  - rewrite occurs_in_cons.
    destruct (Str.starts_with pat (String a s)) eqn:E.
    + split; eauto.
    + rewrite IH. split; [auto | intros [H|H]; [discriminate|exact H]].
Qed.

Lemma crashIsHandled_iff handled fmt :
  crashIsHandled handled fmt = true
  <-> exists signature, In signature handled /\ Str.occurs_in signature fmt.
Proof.
  induction handled as [|sig rest IH]; simpl.
  - split; [discriminate | intros (? & [] & _)].
  - destruct (Str.find fmt sig) eqn:E.
    + split; [intros _ | reflexivity].
      exists sig. split; [now left|]. apply (find_from_iff sig fmt 0%nat). eauto.
    + rewrite IH. split.
      * intros (s & Hin & Hocc). exists s. auto.
      * intros (s & [<-|Hin] & Hocc).
        -- apply (find_from_iff sig fmt 0%nat) in Hocc as [p Hp].
           unfold Str.find in E. congruence.
        -- exists s. auto.
Qed.

(** C1.  [TryHandleCrash] treats a fault as known exactly when one of the
    configured signatures occurs in the raw format string, whatever the
    formatted message is; when none occurs it returns false and changes
    nothing, and when one occurs it never returns false. *)
Theorem TryHandleCrash_known_iff_signature
  (rt : Runtime) (destroyOBS_API : State -> option State)
  (faults : list (nat * string)) (_format _crashMessage : string) (st : State) :
  let known := exists signature,
                 In signature (handledOBSCrashes st)
                 /\ Str.occurs_in signature _format in
  (crashIsHandled (handledOBSCrashes st) _format = true <-> known)
  /\ (~ known ->
      TryHandleCrash rt destroyOBS_API faults _format _crashMessage st
      = Returned false st)
  /\ (known ->
      forall st', TryHandleCrash rt destroyOBS_API faults _format _crashMessage st
                  <> Returned false st').
Proof.
  cbv zeta. pose proof (crashIsHandled_iff (handledOBSCrashes st) _format) as H.
  split; [exact H|]. unfold TryHandleCrash. split.
  - intros Hn. destruct (crashIsHandled (handledOBSCrashes st) _format); simpl.
    + exfalso. apply Hn, H. reflexivity.
    + reflexivity.
  - intros Hk st'. apply H in Hk. rewrite Hk. simpl.
    destruct (destroyOBS_API st) as [st1|].
    + unfold process_exit. destruct (HandleExit rt faults st1); simpl; discriminate.
    + destruct (HandleCrash rt faults _crashMessage true st); simpl; discriminate.
Qed.

Lemma TryHandleCrash_known_iff_signature_witness :
  TryHandleCrash Sample.runtime (fun _ => None) [] "%s"
                 "Failed to recreate D3D11" Sample.state
  = Returned false Sample.state.
Proof.
  pose proof (TryHandleCrash_known_iff_signature
                Sample.runtime (fun _ => None) [] "%s"
                "Failed to recreate D3D11" Sample.state) as (Hiff & Hunknown & _).
  apply Hunknown. intros Hk. apply Hiff in Hk. vm_compute in Hk. discriminate.
Defined.

(** ** The call stack *)

Lemma loop_body_missing rt i st :
  resolution rt i = None ->
  loop_body rt i st
  = {| missingFrames := (missingFrames st ++ [Z.of_nat i])%list;
       crashedMethod := crashedMethod st;
       result := result st |}.
Proof.
  unfold resolution, loop_body. intros H.
  destruct (SymFromAddr rt _) as [[n sa]|]; [|reflexivity].
  destruct (SymGetLineFromAddr64 rt _) as [[p l]|]; [discriminate|reflexivity].
Qed.

Lemma loop_body_self rt i st n sa p l :
  resolution rt i = Some (n, sa, p, l) ->
  String.eqb (file_of_path p) "util-crashmanager.cpp" = true ->
  loop_body rt i st = st.
Proof.
  unfold resolution, loop_body. intros H Hf.
  destruct (SymFromAddr rt _) as [[n' sa']|]; [|discriminate].
  destruct (SymGetLineFromAddr64 rt _) as [[p' l']|]; [|discriminate].
  injection H as -> -> -> ->. now rewrite Hf.
Qed.

Lemma loop_body_emits rt i st n sa p l :
  resolution rt i = Some (n, sa, p, l) ->
  String.eqb (file_of_path p) "util-crashmanager.cpp" = false ->
  exists e,
    loop_body rt i st
    = {| missingFrames := [];
         crashedMethod := n;
         result := (result st ++ [e])%list |}
    /\ fn_name e = n
    /\ frames_omitted e
       = match last (missingFrames st) with
         | Some back => Some (to_string back, to_string (Z.of_nat i))
         | None => None
         end.
Proof.
  unfold resolution, loop_body. intros H Hf.
  destruct (SymFromAddr rt _) as [[n' sa']|]; [|discriminate].
  destruct (SymGetLineFromAddr64 rt _) as [[p' l']|]; [|discriminate].
  injection H as -> -> -> ->. rewrite Hf.
  eexists. split; [reflexivity|]. split; reflexivity.
Qed.

Lemma last_cons_default {A} (x : A) (l : list A) :
  last (x :: l) = Some (default x (last l)).
Proof.
  revert x. induction l as [|y l IH]; intros x; [reflexivity|].
  change (last (x :: y :: l)) with (last (y :: l)).
  rewrite (IH y). reflexivity.
Qed.

Lemma loop_fold_names rt (l : list nat) : forall st,
  let st' := fold_left (fun st i => loop_body rt i st) l st in
  map fn_name (result st')
  = (map fn_name (result st) ++ omap (emitted_name rt) l)%list
  /\ crashedMethod st'
     = default (crashedMethod st) (last (omap (emitted_name rt) l)).
Proof.
  induction l as [|i l IH]; intros st; simpl.
  - now rewrite app_nil_r.
  - specialize (IH (loop_body rt i st)). cbv zeta in IH.
    destruct IH as [IHr IHc]. rewrite IHr, IHc. clear IHr IHc.
    change (list_omap nat string (emitted_name rt) l)
      with (omap (emitted_name rt) l).
    assert (Hem := eq_refl (emitted_name rt i)).
    unfold emitted_name at 2 in Hem.
    destruct (resolution rt i) as [[[[n sa] p] l']|] eqn:Hres.
    + destruct (String.eqb (file_of_path p) "util-crashmanager.cpp") eqn:Hf;
        rewrite Hem.
      * rewrite (loop_body_self rt i st n sa p l' Hres Hf). auto.
      * destruct (loop_body_emits rt i st n sa p l' Hres Hf)
          as (e & -> & Hn & _). simpl result. simpl crashedMethod.
        rewrite map_app, <- app_assoc. simpl map. rewrite Hn.
        split; [reflexivity|]. rewrite last_cons_default. reflexivity.
    + rewrite Hem, (loop_body_missing rt i st Hres). auto.
Qed.

Lemma loop_indices_descending (n : nat) (skip : Z) :
  0 <= skip ->
  loop_indices n skip = rev (seq (Z.to_nat skip) (n - Z.to_nat skip)).
Proof.
  intros Hs. induction n as [|i IH]; simpl; [reflexivity|].
  destruct (Z.ltb_spec (Z.of_nat i) skip) as [Hlt|Hge].
  - replace (S i - Z.to_nat skip)%nat with 0%nat by lia. reflexivity.
  - replace (S i - Z.to_nat skip)%nat with (S (i - Z.to_nat skip)) by lia.
    rewrite seq_S, rev_app_distr, IH. simpl. f_equal. lia.
Qed.

(** C5, as the code has it.  The loop takes the kept frames by falling
    index, from the outermost one down to index [skip], the innermost one
    that is not skipped; the entries come out in that order, one for each
    frame that resolves outside the crash manager's own file, and
    [crashedMethod] ends as the name of the last of them, the innermost
    one (or as it was when there is none). *)
Theorem RewindCallStack_order_and_crashedMethod
  (rt : Runtime) (skip : Z) (crashedMethod0 : string) :
  capture_available rt = true ->
  0 <= skip < 2 ^ 31 ->
  let visited := loop_indices (frames rt) (int_of_uint32 skip) in
  let out := RewindCallStack_frames rt skip crashedMethod0 in
  visited = rev (seq (Z.to_nat skip) (frames rt - Z.to_nat skip))
  /\ map fn_name (fst out) = omap (emitted_name rt) visited
  /\ snd out = default crashedMethod0 (last (omap (emitted_name rt) visited)).
Proof.
  intros Hcap Hskip visited out.
  assert (Hint : int_of_uint32 skip = skip).
  { unfold int_of_uint32. destruct (Z.ltb_spec skip (2 ^ 31)); lia. }
  split.
  { unfold visited. rewrite Hint. apply loop_indices_descending. lia. }
  unfold out, RewindCallStack_frames. rewrite Hcap. simpl negb. cbv iota.
  fold visited.
  pose proof (loop_fold_names rt visited
                {| missingFrames := []; crashedMethod := crashedMethod0;
                   result := [] |}) as H.
  cbv zeta in H. simpl in H. exact H.
Qed.

Lemma RewindCallStack_order_witness :
  let rt := Sample.runtime in
  loop_indices (frames rt) (int_of_uint32 2)
  = rev (seq 2 (frames rt - 2))
  /\ snd (RewindCallStack_frames rt 2 "") = "frame2".
Proof.
  destruct (RewindCallStack_order_and_crashedMethod Sample.runtime 2 ""
              eq_refl ltac:(lia)) as (H1 & _ & H3).
  split; [exact H1|]. rewrite H3. reflexivity.
Defined.

(** C5 as stated fails: on the sample stack the frames are not taken from
    the innermost one outwards, and the crashed method is not the last
    frame of that order. *)
Lemma RewindCallStack_not_innermost_first :
  let rt := Sample.runtime in
  loop_indices (frames rt) (int_of_uint32 0) <> spec_order rt 0
  /\ map fn_name (fst (RewindCallStack_frames rt 0 ""))
     <> omap (emitted_name rt) (spec_order rt 0)
  /\ snd (RewindCallStack_frames rt 0 "") <> spec_crashedMethod rt 0 "".
Proof. vm_compute. repeat split; discriminate. Qed.

Lemma emitted_name_resolved rt i :
  emitted_name rt i <> None ->
  exists n sa p l,
    resolution rt i = Some (n, sa, p, l)
    /\ String.eqb (file_of_path p) "util-crashmanager.cpp" = false
    /\ emitted_name rt i = Some n.
Proof.
  unfold emitted_name. intros H.
  destruct (resolution rt i) as [[[[n sa] p] l]|]; [|contradiction].
  destruct (String.eqb (file_of_path p) "util-crashmanager.cpp") eqn:E;
    [contradiction|].
  exists n, sa, p, l. auto.
Qed.

Ltac step_emit rt Hok :=
  match goal with
  | |- context [loop_body rt ?i {| missingFrames := ?m; crashedMethod := ?c;
                                    result := ?r |}] =>
      let n := fresh "n" in let sa := fresh "sa" in let p := fresh "p" in
      let l := fresh "l" in let Hres := fresh "Hres" in
      let Hf := fresh "Hf" in let Hem := fresh "Hem" in
      let e := fresh "e" in let He := fresh "He" in
      let Hn := fresh "Hn" in let Ho := fresh "Ho" in
      destruct (emitted_name_resolved rt i (Hok i ltac:(lia) ltac:(lia)))
        as (n & sa & p & l & Hres & Hf & Hem);
      destruct (loop_body_emits rt i
                  {| missingFrames := m; crashedMethod := c; result := r |}
                  n sa p l Hres Hf) as (e & He & Hn & Ho);
      rewrite He; clear He; simpl in Ho; rewrite Hem
  end.

Ltac step_miss rt Hfail :=
  match goal with
  | |- context [loop_body rt ?i {| missingFrames := ?m; crashedMethod := ?c;
                                    result := ?r |}] =>
      rewrite (loop_body_missing rt i
                 {| missingFrames := m; crashedMethod := c; result := r |}
                 (Hfail i ltac:(lia)));
      simpl missingFrames; simpl crashedMethod; simpl result
  end.

(** C4, as the code has it.  Ten captured frames, of which exactly the
    frames 3, 4 and 5 fail to resolve and none lies in the crash manager's
    file, give seven entries, for the frames 9, 8, 7, 6, 2, 1, 0 in this
    order: no entry stands for a failed frame, and the entry of frame 2,
    the first one emitted after the failed run, is the only one with a
    "frames omitted" attribute. *)
Theorem RewindCallStack_gap_of_three (rt : Runtime) (crashedMethod0 : string) :
  capture_available rt = true ->
  List.length (return_addresses rt) = 10%nat ->
  (forall i, (3 <= i <= 5)%nat -> resolution rt i = None) ->
  (forall i, (i < 10)%nat -> ~ (3 <= i <= 5)%nat -> emitted_name rt i <> None) ->
  let entries := fst (RewindCallStack_frames rt 0 crashedMethod0) in
  List.length entries = 7%nat
  /\ map (fun e => Some (fn_name e)) entries
     = map (emitted_name rt) [9; 8; 7; 6; 2; 1; 0]%nat
  /\ (forall k e, entries !! k = Some e ->
                  (frames_omitted e <> None <-> k = 4%nat)).
Proof.
  intros Hcap Hlen Hfail Hok entries.
  assert (Hframes : frames rt = 10%nat).
  { unfold frames, callers_stack.
    rewrite firstn_all2 by (rewrite Hlen; unfold kMaxCallers; lia).
    rewrite Hlen. reflexivity. }
  unfold entries, RewindCallStack_frames. rewrite Hcap, Hframes.
  simpl negb. cbv iota.
  change (loop_indices 10 (int_of_uint32 0)) with [9; 8; 7; 6; 5; 4; 3; 2; 1; 0]%nat.
  cbn [fold_left map].
  do 4 step_emit rt Hok. do 3 step_miss rt Hfail. do 3 step_emit rt Hok.
  cbn [fst result app length]. split; [reflexivity|]. split.
  { cbn [map]. congruence. }
  intros k entry Hk.
  do 7 (destruct k as [|k];
        [ injection Hk as <-;
          match goal with H : frames_omitted _ = _ |- _ => rewrite H end;
          split; [try congruence; try lia | try discriminate; try lia]
        | ]).
  discriminate.
Qed.

Lemma RewindCallStack_gap_of_three_witness :
  List.length (fst (RewindCallStack_frames Sample.runtime 0 "")) = 7%nat.
Proof.
  apply (RewindCallStack_gap_of_three Sample.runtime "").
  - reflexivity.
  - reflexivity.
  - intros i Hi.
    do 6 (destruct i as [|i]; [first [reflexivity | exfalso; lia]|]).
    exfalso; lia.
  - intros i Hi Hn.
    do 10 (destruct i as [|i];
           [first [vm_compute; discriminate | exfalso; lia]|]).
    exfalso; lia.
Defined.

(** C4 as stated fails: the sample stack has its failures at the frames
    3, 4 and 5 of ten, and the output has seven entries, none of which
    carries the range ("3", "5"); the attribute on the entry of frame 2
    holds the last index pushed to the pending run and the index of that
    frame. *)
Lemma RewindCallStack_gap_not_eight_entries :
  let entries := fst (RewindCallStack_frames Sample.runtime 0 "") in
  List.length entries <> 8%nat
  /\ Forall (fun e => frames_omitted e <> Some ("3", "5")) entries
  /\ (exists e, entries !! 4%nat = Some e
                /\ fn_name e = "frame2"
                /\ frames_omitted e = Some ("3", "2")).
Proof.
  vm_compute. split; [discriminate|]. split.
  - repeat constructor; discriminate.
  - eexists. split; [reflexivity|]. split; reflexivity.
Qed.

(** ** The report assembly and its latch *)

Lemma annotate_inserts info key v :
  (key = "Crash reason" -> v = info) -> inserts info key (annotate key v).
Proof.
  intros Hv st st' H. injection H as <-. simpl.
  split; [exists v; auto|]. repeat split; reflexivity.
Qed.

Lemma annotate_bytes_inserts info rt key bytes rest :
  key <> "Crash reason" -> inserts info key (annotate_bytes rt key bytes rest).
Proof.
  intros Hk st st' H. unfold annotate_bytes in H.
  destruct (Bytes.PrettyBytes _ _); [|discriminate].
  apply (annotate_inserts info key _ ltac:(intros; contradiction) st st' H).
Qed.

Lemma annotate_json_inserts info rt key (f : State -> json) :
  key <> "Crash reason" ->
  inserts info key (fun st => annotate_json rt key (f st) st).
Proof.
  intros Hk st st' H. unfold annotate_json in H.
  destruct (json_as_string rt (f st)); [|discriminate].
  apply (annotate_inserts info key _ ltac:(intros; contradiction) st st' H).
Qed.

Lemma annotate_log_inserts info rt key type :
  key <> "Crash reason" ->
  inserts info key
    (fun st => let '(log, st') := RequestOBSLog type st in
               annotate key (dump4 rt log) st').
Proof.
  intros Hk st st' H. destruct type; simpl in H; injection H as <-; simpl;
    (split; [eexists; split; [reflexivity|intros; contradiction]|]);
    repeat split; reflexivity.
Qed.

Lemma insert_steps_spec rt info :
  Forall2 (inserts info) report_keys (insert_steps rt info).
Proof.
  unfold report_keys, insert_steps.
  repeat match goal with
         | |- Forall2 _ _ _ => constructor
         end;
    first [ apply annotate_bytes_inserts; discriminate
          | apply annotate_json_inserts with (f := ComputeBreadcrumbs); discriminate
          | apply annotate_json_inserts with (f := ComputeWarnings); discriminate
          | apply annotate_log_inserts; discriminate
          | apply annotate_inserts; first [reflexivity | discriminate]
          | idtac ].
  intros st st' H.
  apply (annotate_inserts info "Status" _ ltac:(discriminate) st st' H).
Qed.

Lemma std_map_insert_subseteq key v (m : gmap string string) :
  m ⊆ std_map_insert key v m.
Proof.
  unfold std_map_insert. destruct (m !! key) eqn:E; [reflexivity|].
  now apply insert_subseteq.
Qed.

Lemma inserts_keeps_latch info key step :
  inserts info key step -> keeps_latch step.
Proof.
  intros H st st' Hs. destruct (H st st' Hs) as ((v & -> & _) & Hl & _).
  split; [exact Hl | apply std_map_insert_subseteq].
Qed.

Lemma setup_keeps_latch rt :
  keeps_latch (fun st => Some (snd (SetupCrashpad rt st))).
Proof.
  intros st st' H. injection H as <-. unfold SetupCrashpad.
  repeat match goal with |- context [if ?c then _ else _] => destruct c end;
    simpl; split; reflexivity.
Qed.

Lemma report_steps_keep_latch rt info :
  Forall keeps_latch (report_steps rt info).
Proof.
  unfold report_steps. apply Forall_app. split.
  - pose proof (insert_steps_spec rt info) as H.
    induction H as [|key step keys steps Hi _ IH]; constructor; [|exact IH].
    exact (inserts_keeps_latch info key step Hi).
  - constructor; [apply setup_keeps_latch | constructor].
Qed.

Lemma steps_prefix_keeps steps : forall n st st',
  Forall keeps_latch steps ->
  steps_prefix n steps st = Some st' ->
  insideCrashMethod st' = insideCrashMethod st
  /\ annotations st ⊆ annotations st'.
Proof.
  induction steps as [|step steps IH]; intros n st st' Hall H.
  - destruct n; simpl in H; [injection H as <-; split; reflexivity|discriminate].
  - destruct n; simpl in H; [injection H as <-; split; reflexivity|].
    inversion Hall as [|? ? Hk Hrest]; subst.
    destruct (step st) as [s1|] eqn:E; [|discriminate].
    destruct (Hk st s1 E) as [Hl Hs]. destruct (IH n s1 st' Hrest H) as [Hl' Hs'].
    split; [congruence | etransitivity; eassumption].
Qed.

(** What [run_steps] can end in when the latch is set and every crash
    hook entered finds it set: the statements all ran, or the process was
    aborted in the state that a prefix of them left, because the next
    statement raised or the outside fault struck there. *)
Lemma run_steps_outcome hook fault steps : forall pos st,
  (forall reason s, insideCrashMethod s = true -> hook reason s = Aborted s) ->
  Forall keeps_latch steps ->
  insideCrashMethod st = true ->
  (exists st', run_steps hook fault pos steps st = Returned tt st'
               /\ steps_prefix (List.length steps) steps st = Some st'
               /\ (forall k reason, fault = Some (k, reason) ->
                     ~ (pos <= k < pos + List.length steps)%nat))
  \/ (exists j st', (j < List.length steps)%nat
                    /\ steps_prefix j steps st = Some st'
                    /\ run_steps hook fault pos steps st = Aborted st'
                    /\ ((exists step, nth_error steps j = Some step
                                      /\ step st' = None)
                        \/ (exists reason, fault = Some ((pos + j)%nat, reason)))
                    /\ (forall k reason, fault = Some (k, reason) ->
                          (pos <= k)%nat -> (pos + j <= k)%nat)).
Proof.
  intros pos st Hhook Hall. revert pos st.
  induction steps as [|step steps IH]; intros pos st Hl; simpl.
  - left. exists st. repeat split. intros; lia.
  - inversion Hall as [|? ? Hk Hrest]; subst.
    assert (Hstop : forall reason, then_abort (hook reason st) = Aborted st).
    { intros reason. now rewrite Hhook. }
    assert (Hcont :
      fault = None \/ (exists k reason, fault = Some (k, reason) /\ k <> pos) ->
      (exists st', match step st with
                   | Some s1 => run_steps hook fault (S pos) steps s1
                   | None => then_abort (hook "Direct call to std::terminate" st)
                   end = Returned tt st'
                   /\ match step st with
                      | Some s1 => steps_prefix (List.length steps) steps s1
                      | None => None
                      end = Some st'
                   /\ (forall k reason, fault = Some (k, reason) ->
                         ~ (pos <= k < pos + S (List.length steps))%nat))
      \/ (exists j st', (j < S (List.length steps))%nat
            /\ steps_prefix j (step :: steps) st = Some st'
            /\ match step st with
               | Some s1 => run_steps hook fault (S pos) steps s1
               | None => then_abort (hook "Direct call to std::terminate" st)
               end = Aborted st'
            /\ ((exists step', nth_error (step :: steps) j = Some step'
                               /\ step' st' = None)
                \/ (exists reason, fault = Some ((pos + j)%nat, reason)))
            /\ (forall k reason, fault = Some (k, reason) ->
                  (pos <= k)%nat -> (pos + j <= k)%nat))).
    { intros Hfault. destruct (step st) as [s1|] eqn:E.
      - destruct (Hk st s1 E) as [Hl1 _].
        destruct (IH Hrest (S pos) s1 ltac:(congruence))
          as [(st' & Hr & Hp & Hn) | (j & st' & Hj & Hp & Hr & Hwhy & Hb)].
        + left. exists st'. repeat split; try assumption.
          intros k reason Hf Hrange.
          destruct Hfault as [Hnone | (k' & r' & Hsome & Hne)]; [congruence|].
          rewrite Hf in Hsome. injection Hsome as <- <-.
          apply (Hn k reason Hf). lia.
        + right. exists (S j), st'. simpl. rewrite E.
          split; [lia|]. split; [exact Hp|]. split; [exact Hr|]. split.
          * destruct Hwhy as [Hraise | [reason Hf]]; [left; exact Hraise|].
            right. exists reason.
            replace (pos + S j)%nat with (S pos + j)%nat by lia. exact Hf.
          * intros k reason Hf Hle.
            destruct Hfault as [Hnone | (k' & r' & Hsome & Hne)]; [congruence|].
            rewrite Hf in Hsome. injection Hsome as <- <-.
            specialize (Hb k reason Hf ltac:(lia)). lia.
      - right. exists 0%nat, st. rewrite Hstop.
        split; [lia|]. split; [reflexivity|]. split; [reflexivity|]. split.
        + left. exists step. auto.
        + intros; lia. }
    destruct fault as [[k reason]|].
    + destruct (Nat.eqb_spec k pos) as [->|Hne].
      * right. exists 0%nat, st. rewrite Hstop.
        split; [lia|]. split; [reflexivity|]. split; [reflexivity|]. split.
        -- right. exists reason. now replace (pos + 0)%nat with pos by lia.
        -- intros; lia.
      * apply Hcont. right. eauto.
    + apply Hcont. now left.
Qed.

Lemma run_steps_hook_ext h1 h2 fault steps : forall pos st,
  (forall reason s, insideCrashMethod s = true -> h1 reason s = h2 reason s) ->
  Forall keeps_latch steps ->
  insideCrashMethod st = true ->
  run_steps h1 fault pos steps st = run_steps h2 fault pos steps st.
Proof.
  intros pos st Hh Hall. revert pos st.
  induction steps as [|step steps IH]; intros pos st Hl; simpl; [reflexivity|].
  inversion Hall as [|? ? Hk Hrest]; subst.
  assert (Hc : match step st with
               | Some st' => run_steps h1 fault (S pos) steps st'
               | None => then_abort (h1 "Direct call to std::terminate" st)
               end
               = match step st with
                 | Some st' => run_steps h2 fault (S pos) steps st'
                 | None => then_abort (h2 "Direct call to std::terminate" st)
                 end).
  { destruct (step st) as [s1|] eqn:E.
    - destruct (Hk st s1 E) as [Hl1 _]. apply IH; [exact Hrest|congruence].
    - now rewrite Hh. }
  destruct fault as [[k reason]|]; [|exact Hc].
  destruct (k =? pos)%nat; [now rewrite Hh | exact Hc].
Qed.

Lemma HandleCrash_fuel_unfold fuel rt faults info callAbort st :
  HandleCrash_fuel (S fuel) rt faults info callAbort st
  = if insideCrashMethod st then Aborted st
    else bind (run_steps
                 (fun reason s =>
                    HandleCrash_fuel fuel rt (tl faults) reason true s)
                 (head faults) 0 (report_steps rt info)
                 (set_insideCrashMethod true st))
              (fun _ st2 =>
                 if callAbort then Aborted st2
                 else Returned tt (set_insideCrashMethod false st2)).
Proof. reflexivity. Qed.

Lemma hook_latched fuel rt faults reason s :
  insideCrashMethod s = true ->
  HandleCrash_fuel (S fuel) rt faults reason true s = Aborted s.
Proof. intros H. rewrite HandleCrash_fuel_unfold. now rewrite H. Qed.

Lemma HandleCrash_fuel_enough n rt faults info callAbort st :
  HandleCrash_fuel (S (S n)) rt faults info callAbort st
  = HandleCrash rt faults info callAbort st.
Proof.
  unfold HandleCrash.
  rewrite !HandleCrash_fuel_unfold.
  destruct (insideCrashMethod st); [reflexivity|]. f_equal.
  apply run_steps_hook_ext;
    [|apply report_steps_keep_latch|reflexivity].
  intros reason s Hs. now rewrite !hook_latched.
Qed.

Lemma HandleCrash_outcome rt faults info callAbort st :
  insideCrashMethod st = false ->
  let st1 := set_insideCrashMethod true st in
  let steps := report_steps rt info in
  (exists st2, steps_prefix 17 steps st1 = Some st2
               /\ HandleCrash rt faults info callAbort st
                  = (if callAbort then Aborted st2
                     else Returned tt (set_insideCrashMethod false st2))
               /\ (forall k reason, head faults = Some (k, reason) ->
                     (17 <= k)%nat))
  \/ (exists j st', (j < 17)%nat
                    /\ steps_prefix j steps st1 = Some st'
                    /\ HandleCrash rt faults info callAbort st = Aborted st'
                    /\ ((exists step, nth_error steps j = Some step
                                      /\ step st' = None)
                        \/ (exists reason, head faults = Some (j, reason)))
                    /\ (forall k reason, head faults = Some (k, reason) ->
                          (j <= k)%nat)).
Proof.
  intros Hl. cbv zeta. unfold HandleCrash.
  rewrite HandleCrash_fuel_unfold, Hl.
  pose proof (report_steps_keep_latch rt info) as Hkeep.
  assert (Hlen : List.length (report_steps rt info) = 17%nat) by reflexivity.
  generalize dependent (report_steps rt info). intros steps Hkeep Hlen.
  assert (Hl1 : insideCrashMethod (set_insideCrashMethod true st) = true)
    by reflexivity.
  generalize dependent (set_insideCrashMethod true st). intros st1 Hl1.
  pose proof (run_steps_outcome
                (fun reason s => HandleCrash_fuel 1 rt (tl faults) reason true s)
                (head faults) steps 0%nat st1
                (fun reason s Hs => hook_latched 0 rt (tl faults) reason s Hs)
                Hkeep Hl1) as Hrun.
  rewrite Hlen in Hrun.
  destruct Hrun as [(st2 & Hr & Hp & Hn) | (j & st' & Hj & Hp & Hr & Hwhy & Hb)].
  - left. exists st2. rewrite Hr. simpl bind. repeat split; try assumption.
    intros k reason Hf. specialize (Hn k reason Hf). lia.
  - right. exists j, st'. rewrite Hr. simpl bind.
    repeat split; try assumption.
    intros k reason Hf. apply (Hb k reason Hf). lia.
Qed.

Lemma json_of_messages_shape (msgs : list string) :
  json_of_messages msgs
  = match msgs with
    | [] => JNull
    | _ => JArr (map JStr msgs)
    end.
Proof.
  unfold json_of_messages.
  assert (H : forall l items,
             fold_left (fun acc msg => json_push_back acc (JStr msg)) l
                       (JArr items)
             = JArr (items ++ map JStr l)%list).
  { induction l as [|m l IH]; intros items; simpl.
    - now rewrite app_nil_r.
    - rewrite IH, <- app_assoc. reflexivity. }
  destruct msgs as [|m l]; [reflexivity|]. simpl. now rewrite H.
Qed.

Lemma nlohmann_rejects_messages (msgs : list string) :
  nlohmann_as_string (json_of_messages msgs) = None.
Proof. rewrite json_of_messages_shape. now destruct msgs. Qed.

Lemma std_map_insert_lookup key v (m : gmap string string) :
  is_Some (std_map_insert key v m !! key).
Proof.
  unfold std_map_insert. destruct (m !! key) eqn:E; [rewrite E; eauto|].
  rewrite lookup_insert_eq. eauto.
Qed.

Lemma std_map_insert_new key v (m : gmap string string) k w :
  std_map_insert key v m !! k = Some w ->
  m !! k = Some w \/ (m !! k = None /\ k = key /\ w = v).
Proof.
  unfold std_map_insert. destruct (m !! key) eqn:E; [auto|].
  destruct (decide (key = k)) as [<-|Hne].
  - rewrite lookup_insert_eq. intros [= <-]. auto.
  - rewrite lookup_insert_ne by exact Hne. auto.
Qed.

Lemma prefix_inserts info keys steps :
  Forall2 (inserts info) keys steps ->
  forall j st st', steps_prefix j steps st = Some st' ->
    annotations st ⊆ annotations st'
    /\ (forall key v, annotations st' !! key = Some v ->
          annotations st !! key = Some v
          \/ (annotations st !! key = None /\ In key (take j keys)
              /\ (key = "Crash reason" -> v = info)))
    /\ (forall key, In key (take j keys) -> is_Some (annotations st' !! key))
    /\ insideCrashMethod st' = insideCrashMethod st
    /\ breadcrumbs st' = breadcrumbs st
    /\ warnings st' = warnings st
    /\ obs_active st' = obs_active st
    /\ start_requests st' = start_requests st.
Proof.
  induction 1 as [|key step keys steps Hi Hrest IH]; intros j st st' Hp.
  - assert (st' = st) as ->
        by (destruct j; simpl in Hp; [now injection Hp|discriminate]).
    split; [reflexivity|]. split; [auto|].
    split; [intros key Hin; destruct j; destruct Hin|]. auto 10.
  - destruct j as [|j]; simpl in Hp.
    { injection Hp as <-. split; [reflexivity|]. split; [auto|].
      split; [intros k []|]. auto 10. }
    destruct (step st) as [s1|] eqn:E; [|discriminate].
    destruct (Hi st s1 E) as ((v0 & Hmap & Hcr) & Hl & Hb & Hw & Ho & Hs).
    destruct (IH j s1 st' Hp) as (Ha & Hnew & Hin & Hl' & Hb' & Hw' & Ho' & Hs').
    assert (Hsub : annotations st ⊆ annotations s1)
      by (rewrite Hmap; apply std_map_insert_subseteq).
    split; [etransitivity; eassumption|].
    split; [|split; [|repeat split; congruence]].
    + intros k w Hk. destruct (Hnew k w Hk) as [H1 | (H1 & H2 & H3)].
      * rewrite Hmap in H1.
        destruct (std_map_insert_new key v0 _ k w H1) as [H|(H & -> & ->)];
          [now left|].
        right. split; [exact H|]. split; [now left | exact Hcr].
      * right. split; [|split; [now right | exact H3]].
        destruct (annotations st !! k) as [u|] eqn:Eu; [|reflexivity].
        rewrite (lookup_weaken _ _ _ _ Eu Hsub) in H1. discriminate.
    + intros k [<-|Hk]; [|now apply Hin].
      destruct (std_map_insert_lookup key v0 (annotations st)) as [u Hu].
      rewrite <- Hmap in Hu. exists u. exact (lookup_weaken _ _ _ _ Hu Ha).
Qed.

Lemma steps_prefix_app (l1 l2 : list Step) : forall j st,
  steps_prefix j (l1 ++ l2) st
  = if (j <=? List.length l1)%nat then steps_prefix j l1 st
    else match steps_prefix (List.length l1) l1 st with
         | Some s => steps_prefix (j - List.length l1) l2 s
         | None => None
         end.
Proof.
  induction l1 as [|step l1 IH]; intros j st.
  - destruct j; [reflexivity|]. simpl. reflexivity.
  - destruct j as [|j]; [reflexivity|]. simpl.
    destruct (step st) as [s1|]; [apply IH|].
    now destruct (j <=? List.length l1)%nat.
Qed.

(** The state that a prefix of the whole assembly leaves. *)
Lemma report_prefix_facts rt info j st st' :
  steps_prefix j (report_steps rt info) st = Some st' ->
  annotations st ⊆ annotations st'
  /\ (forall key v, annotations st' !! key = Some v ->
        annotations st !! key = Some v
        \/ (annotations st !! key = None /\ In key (take j report_keys)
            /\ (key = "Crash reason" -> v = info)))
  /\ (forall key, In key (take j report_keys) ->
        is_Some (annotations st' !! key))
  /\ insideCrashMethod st' = insideCrashMethod st
  /\ breadcrumbs st' = breadcrumbs st
  /\ warnings st' = warnings st
  /\ obs_active st' = obs_active st
  /\ ((j <= 16)%nat -> start_requests st' = start_requests st).
Proof.
  unfold report_steps. rewrite steps_prefix_app.
  change (List.length (insert_steps rt info)) with 16%nat.
  pose proof (prefix_inserts info _ _ (insert_steps_spec rt info)) as H.
  destruct (Nat.leb_spec j 16) as [Hj|Hj].
  - intros Hp. destruct (H j st st' Hp) as (?&?&?&?&?&?&?&?). auto 10.
  - destruct (steps_prefix 16 (insert_steps rt info) st) as [s16|] eqn:E;
      [|discriminate].
    destruct (H 16%nat st s16 E) as (Ha & Hnew & Hin & Hl & Hb & Hw & Ho & Hs).
    destruct (j - 16)%nat as [|n] eqn:En; [lia|]. simpl.
    destruct n; [|discriminate]. intros [= <-].
    assert (Hann : annotations (snd (SetupCrashpad rt s16)) = annotations s16).
    { unfold SetupCrashpad.
      repeat match goal with |- context [if ?c then _ else _] => destruct c end;
        reflexivity. }
    assert (Hfr : insideCrashMethod (snd (SetupCrashpad rt s16))
                  = insideCrashMethod s16
                  /\ breadcrumbs (snd (SetupCrashpad rt s16)) = breadcrumbs s16
                  /\ warnings (snd (SetupCrashpad rt s16)) = warnings s16
                  /\ obs_active (snd (SetupCrashpad rt s16)) = obs_active s16).
    { unfold SetupCrashpad.
      repeat match goal with |- context [if ?c then _ else _] => destruct c end;
        repeat split; reflexivity. }
    destruct Hfr as (F1 & F2 & F3 & F4). rewrite Hann, F1, F2, F3, F4.
    replace (take j report_keys) with (take 16 report_keys)
      by (unfold report_keys; destruct j as [|j]; [lia|];
          do 16 (destruct j as [|j]; [lia|]); reflexivity).
    repeat split; try assumption. intros; lia.
Qed.

(** The first fourteen inserts cannot raise. *)
Lemma first_inserts_succeed rt info j step st :
  (j < 14)%nat ->
  nth_error (report_steps rt info) j = Some step ->
  step st <> None.
Proof.
  intros Hj Hn.
  do 14 (destruct j as [|j];
         [ injection Hn as <-;
           first [ discriminate
                 | unfold annotate_bytes;
                   match goal with
                   | |- context [Bytes.PrettyBytes ?tr (Bytes.to_uint64 ?z)] =>
                       destruct (PrettyBytes_total tr z) as [text ->]
                   end; discriminate
                 | destruct (RequestOBSLog _ st); discriminate ]
         | ]).
  lia.
Qed.

(** With the json library's conversion the insert of "Breadcrumbs" always
    raises: [ComputeBreadcrumbs] never returns a json string. *)
Lemma breadcrumbs_insert_raises rt info step st :
  (forall j, json_as_string rt j = nlohmann_as_string j) ->
  nth_error (report_steps rt info) 14 = Some step ->
  step st = None.
Proof.
  intros Hconv Hn. injection Hn as <-. unfold annotate_json, ComputeBreadcrumbs.
  now rewrite Hconv, nlohmann_rejects_messages.
Qed.

Lemma steps_prefix_ran steps : forall j st st' i,
  steps_prefix j steps st = Some st' ->
  (i < j)%nat ->
  exists step s s', nth_error steps i = Some step /\ step s = Some s'.
Proof.
  induction steps as [|step steps IH]; intros j st st' i Hp Hi.
  - destruct j; [lia|discriminate].
  - destruct j as [|j]; [lia|]. simpl in Hp.
    destruct (step st) as [s1|] eqn:E; [|discriminate].
    destruct i as [|i]; [exists step, st, s1; auto|].
    apply (IH j s1 st' i Hp). lia.
Qed.

(** With that conversion every invocation that passes the latch ends in
    [abort()], in the state left by at most the first fourteen inserts. *)
Lemma HandleCrash_aborts_before_breadcrumbs rt faults info callAbort st :
  (forall j, json_as_string rt j = nlohmann_as_string j) ->
  insideCrashMethod st = false ->
  exists j st',
    (j <= 14)%nat
    /\ steps_prefix j (report_steps rt info) (set_insideCrashMethod true st)
       = Some st'
    /\ HandleCrash rt faults info callAbort st = Aborted st'
    /\ (faults = [] -> j = 14%nat).
Proof.
  intros Hconv Hl.
  assert (Hno : forall j s s',
             steps_prefix j (report_steps rt info) s = Some s' -> (j <= 14)%nat).
  { intros j s s' Hp. destruct (Nat.le_gt_cases j 14%nat) as [|Hgt]; [assumption|].
    destruct (steps_prefix_ran _ j s s' 14%nat Hp Hgt) as (step & a & b & Hn & Hs).
    rewrite (breadcrumbs_insert_raises rt info step a Hconv Hn) in Hs.
    discriminate. }
  destruct (HandleCrash_outcome rt faults info callAbort st Hl)
    as [(st2 & Hp & _) | (j & st' & Hj & Hp & Hr & Hwhy & _)].
  - apply Hno in Hp. lia.
  - exists j, st'. pose proof (Hno _ _ _ Hp) as Hj14.
    repeat split; try assumption.
    intros ->. destruct Hwhy as [(step & Hn & Hs) | [reason Hf]];
      [|discriminate].
    destruct (Nat.eq_dec j 14%nat) as [|Hne]; [assumption|].
    exfalso. apply (first_inserts_succeed rt info j step st' ltac:(lia) Hn Hs).
Qed.

Lemma In_take {A} (x : A) (n : nat) (l : list A) : In x (take n l) -> In x l.
Proof.
  revert n. induction l as [|y l IH]; intros [|n] H; simpl in H;
    try contradiction.
  destruct H as [->|H]; [now left | right; eauto].
Qed.

Lemma HandleCrash_annotations_grow
  (rt : Runtime) (faults : list (nat * string)) (info : string)
  (callAbort : bool) (st st' : State) :
  final_state (HandleCrash rt faults info callAbort st) = Some st' ->
  annotations st ⊆ annotations st'
  /\ (forall key v, annotations st' !! key = Some v ->
        annotations st !! key = Some v
        \/ (annotations st !! key = None /\ In key report_keys
            /\ (key = "Crash reason" -> v = info))).
Proof.
  intros Hfin.
  assert (Hpre : forall j s, steps_prefix j (report_steps rt info)
                               (set_insideCrashMethod true st) = Some s ->
                 annotations s = annotations st' ->
                 annotations st ⊆ annotations st'
                 /\ (forall key v, annotations st' !! key = Some v ->
                       annotations st !! key = Some v
                       \/ (annotations st !! key = None /\ In key report_keys
                           /\ (key = "Crash reason" -> v = info)))).
  { intros j s Hp Heq.
    destruct (report_prefix_facts rt info j _ s Hp) as (Ha & Hnew & _).
    rewrite Heq in Ha, Hnew. simpl in Ha, Hnew. split; [exact Ha|].
    intros key v Hk. destruct (Hnew key v Hk) as [H|(H1 & H2 & H3)]; [now left|].
    right. split; [exact H1|]. split; [exact (In_take _ _ _ H2) | exact H3]. }
  destruct (insideCrashMethod st) eqn:Hl.
  - unfold HandleCrash in Hfin. rewrite HandleCrash_fuel_unfold, Hl in Hfin.
    injection Hfin as <-. split; [reflexivity | auto].
  - destruct (HandleCrash_outcome rt faults info callAbort st Hl)
      as [(st2 & Hp & Hr & _) | (j & s & _ & Hp & Hr & _)];
      rewrite Hr in Hfin.
    + apply (Hpre _ _ Hp). destruct callAbort; injection Hfin as <-; reflexivity.
    + injection Hfin as <-. apply (Hpre _ _ Hp). reflexivity.
Qed.

(** C2.  An invocation of [HandleCrash] that finds the latch set aborts at
    once and leaves every global as it was.  The latch is set during the
    whole assembly, so a fault that strikes there ends the process in the
    state that the interrupted invocation had reached: nothing of a second
    report is built.  An invocation made for a fault (with [callAbort]
    true, as every crash hook does) always ends in [abort()], hence of the
    faults that reach the process only the first is ever processed.  Two
    levels of nesting are all the model needs. *)
Theorem HandleCrash_reentrancy_latch
  (rt : Runtime) (faults : list (nat * string)) (info : string)
  (callAbort : bool) (st : State) :
  (insideCrashMethod st = true ->
   HandleCrash rt faults info callAbort st = Aborted st)
  /\ (insideCrashMethod st = false ->
      forall k reason, head faults = Some (k, reason) -> (k < 17)%nat ->
      exists j st',
        (j <= k)%nat
        /\ steps_prefix j (report_steps rt info)
                        (set_insideCrashMethod true st) = Some st'
        /\ HandleCrash rt faults info callAbort st = Aborted st')
  /\ (exists st', HandleCrash rt faults info true st = Aborted st')
  /\ (forall later,
        handle_faults rt ((faults, info) :: later) st
        = HandleCrash rt faults info true st)
  /\ (forall n,
        HandleCrash_fuel (S (S n)) rt faults info callAbort st
        = HandleCrash rt faults info callAbort st).
Proof.
  assert (Hab : exists st', HandleCrash rt faults info true st = Aborted st').
  { destruct (insideCrashMethod st) eqn:Hl.
    - exists st. unfold HandleCrash. now rewrite HandleCrash_fuel_unfold, Hl.
    - destruct (HandleCrash_outcome rt faults info true st Hl)
        as [(st2 & _ & Hr & _) | (j & st' & _ & _ & Hr & _)]; eauto. }
  split; [|split; [|split; [exact Hab|split]]].
  - intros Hl. unfold HandleCrash. now rewrite HandleCrash_fuel_unfold, Hl.
  - intros Hl k reason Hf Hk.
    destruct (HandleCrash_outcome rt faults info callAbort st Hl)
      as [(st2 & _ & _ & Hn) | (j & st' & _ & Hp & Hr & _ & Hb)].
    + specialize (Hn k reason Hf). lia.
    + exists j, st'. split; [exact (Hb k reason Hf)|]. split; assumption.
  - intros later. simpl. destruct Hab as [st' ->]. reflexivity.
  - intros n. apply HandleCrash_fuel_enough.
Qed.

Lemma HandleCrash_reentrancy_latch_witness :
  HandleCrash Sample.runtime [] "boom" true
              (set_insideCrashMethod true Sample.state)
  = Aborted (set_insideCrashMethod true Sample.state)
  /\ exists j st',
       (j <= 3)%nat
       /\ HandleCrash Sample.runtime [(3%nat, "UnhandledExceptionFilter")]
                      "boom" true Sample.state = Aborted st'.
Proof.
  split.
  - apply (proj1 (HandleCrash_reentrancy_latch
                    Sample.runtime [] "boom" true
                    (set_insideCrashMethod true Sample.state))).
    reflexivity.
  - destruct (proj1 (proj2 (HandleCrash_reentrancy_latch
                    Sample.runtime [(3%nat, "UnhandledExceptionFilter")]
                    "boom" true Sample.state))
                eq_refl 3%nat "UnhandledExceptionFilter" eq_refl ltac:(lia))
      as (j & st' & Hj & _ & Hr).
    exists j, st'. split; [exact Hj | exact Hr].
Defined.

(** The map is never cleared and [std::map::insert] keeps an entry that
    exists: whatever way an invocation of [HandleCrash] ends, every pair
    that was in the map before is still there unchanged, and a pair that is
    new lies under one of the sixteen keys of the inserts and was computed
    by this invocation (the new "Crash reason" is its [_crashInfo]).  An
    invocation that finds all sixteen keys present changes nothing in the
    map. *)
Lemma HandleCrash_insert_keeps_entries
  (rt : Runtime) (faults : list (nat * string)) (info : string)
  (callAbort : bool) (st st' : State) :
  final_state (HandleCrash rt faults info callAbort st) = Some st' ->
  annotations st ⊆ annotations st'
  /\ (forall key v, annotations st' !! key = Some v ->
        annotations st !! key = Some v
        \/ (annotations st !! key = None /\ In key report_keys
            /\ (key = "Crash reason" -> v = info)))
  /\ ((forall key, In key report_keys -> is_Some (annotations st !! key)) ->
      annotations st' = annotations st).
Proof.
  intros Hfin.
  destruct (HandleCrash_annotations_grow _ _ _ _ _ _ Hfin) as [Hsub Hnew].
  split; [exact Hsub|]. split; [exact Hnew|].
  intros Hall. apply map_eq. intros key.
  destruct (annotations st' !! key) as [v|] eqn:E.
  - destruct (Hnew key v E) as [H|(Hnone & Hin & _)]; [now rewrite H|].
    destruct (Hall key Hin) as [w Hw]. congruence.
  - destruct (annotations st !! key) as [w|] eqn:Ew; [|reflexivity].
    rewrite (lookup_weaken _ _ _ _ Ew Hsub) in E. discriminate.
Qed.




(** C3, evaluated.  Starting from the empty map, no invocation ever puts
    a pair under "Time elapsed" (the key written is "Time elapsed: "), and
    nothing but the sixteen keys of the inserts is added.  With the json
    library's conversion the insert of "Breadcrumbs" raises: the invocation
    ends in [abort()] with neither "Breadcrumbs" nor "Warnings" in the map
    and without crashpad having been set up again, the fourteen keys before
    them being present when no outside fault intervened. *)
Theorem HandleCrash_report_keys
  (rt : Runtime) (faults : list (nat * string)) (info : string)
  (callAbort : bool) (st : State) :
  insideCrashMethod st = false ->
  annotations st = ∅ ->
  (forall st', final_state (HandleCrash rt faults info callAbort st) = Some st' ->
     annotations st' !! "Time elapsed" = None
     /\ (forall key, is_Some (annotations st' !! key) -> In key report_keys))
  /\ ((forall j, json_as_string rt j = nlohmann_as_string j) ->
      exists st',
        HandleCrash rt faults info callAbort st = Aborted st'
        /\ annotations st' !! "Breadcrumbs" = None
        /\ annotations st' !! "Warnings" = None
        /\ start_requests st' = start_requests st
        /\ (faults = [] ->
            forall key, In key (take 14 report_keys) ->
                        is_Some (annotations st' !! key))).
Proof.
  intros Hl Hempty. split.
  - intros st' Hfin.
    destruct (HandleCrash_annotations_grow _ _ _ _ _ _ Hfin)
      as [_ Hnew].
    assert (Hin : forall key, is_Some (annotations st' !! key) ->
                              In key report_keys).
    { intros key [v Hv]. destruct (Hnew key v Hv) as [H|(_ & H & _)];
        [rewrite Hempty, lookup_empty in H; discriminate | exact H]. }
    split; [|exact Hin].
    destruct (annotations st' !! "Time elapsed") as [v|] eqn:E; [|reflexivity].
    exfalso. specialize (Hin "Time elapsed" ltac:(rewrite E; eauto)).
    unfold report_keys in Hin. simpl in Hin.
    repeat (destruct Hin as [Hin|Hin]; [discriminate|]). exact Hin.
  - intros Hconv.
    destruct (HandleCrash_aborts_before_breadcrumbs rt faults info callAbort st
                Hconv Hl) as (j & st' & Hj & Hp & Hr & Hfull).
    exists st'. split; [exact Hr|].
    destruct (report_prefix_facts rt info j _ st' Hp)
      as (_ & Hnew & Hin & _ & _ & _ & _ & Hreq).
    simpl in Hnew, Hreq.
    assert (Habsent : forall key, ~ In key (take 14 report_keys) ->
                                  annotations st' !! key = None).
    { intros key Hk. destruct (annotations st' !! key) as [v|] eqn:E;
        [|reflexivity].
      destruct (Hnew key v E) as [H|(_ & H & _)];
        [rewrite Hempty, lookup_empty in H; discriminate|].
      exfalso. apply Hk.
      replace j with (Nat.min j 14) in H by lia.
      rewrite <- take_take in H. exact (In_take _ _ _ H). }
    split; [apply Habsent; simpl; intuition discriminate|].
    split; [apply Habsent; simpl; intuition discriminate|].
    split; [apply Hreq; lia|].
    intros Hf key Hk. rewrite (Hfull Hf) in Hin. exact (Hin key Hk).
Qed.

Lemma HandleCrash_report_keys_witness :
  exists st',
    HandleCrash Sample.runtime [] "boom" true Sample.state = Aborted st'
    /\ annotations st' !! "Time elapsed" = None
    /\ annotations st' !! "Breadcrumbs" = None
    /\ annotations st' !! "Warnings" = None.
Proof.
  destruct (HandleCrash_report_keys Sample.runtime [] "boom" true Sample.state
              eq_refl eq_refl) as [Hkeys Hraise].
  destruct (Hraise (fun j => eq_refl)) as (st' & Hr & Hb & Hw & _).
  exists st'. split; [exact Hr|]. split; [|split; [exact Hb | exact Hw]].
  apply (Hkeys st'). rewrite Hr. reflexivity.
Defined.

(** The contract keys that the sample report lacks. *)
Example sample_report_misses_contract_keys :
  final_state (HandleCrash Sample.runtime [] "boom" true Sample.state)
  = Some Sample.report_first
  /\ filter (fun key => annotations Sample.report_first !! key = None)
            contract_keys
     = ["Time elapsed"; "Breadcrumbs"; "Warnings"].
Proof. vm_compute. split; reflexivity. Qed.

(** C7, evaluated.  With the json library's conversion [HandleExit] on a
    running engine does not come back: the report for "AtExit" is cut
    short at the insert of "Breadcrumbs" and the process ends in [abort()]
    before crashpad is set up again.  On a stopped engine [HandleExit]
    does nothing. *)
Theorem HandleExit_active_aborts
  (rt : Runtime) (faults : list (nat * string)) (st : State) :
  (forall j, json_as_string rt j = nlohmann_as_string j) ->
  insideCrashMethod st = false ->
  (obs_active st = true ->
   exists st', HandleExit rt faults st = Aborted st'
               /\ start_requests st' = start_requests st
               /\ annotations st' !! "Breadcrumbs" = annotations st !! "Breadcrumbs")
  /\ (obs_active st = false -> HandleExit rt faults st = Returned tt st).
Proof.
  intros Hconv Hl. unfold HandleExit. split; intros Ho; rewrite Ho; [|reflexivity].
  destruct (HandleCrash_aborts_before_breadcrumbs rt faults "AtExit" false st
              Hconv Hl) as (j & st' & Hj & Hp & Hr & _).
  exists st'. split; [exact Hr|].
  destruct (report_prefix_facts rt "AtExit" j _ st' Hp)
    as (_ & Hnew & _ & _ & _ & _ & _ & Hreq).
  split; [apply Hreq; lia|]. simpl in Hnew.
  destruct (annotations st' !! "Breadcrumbs") as [v|] eqn:E.
  - destruct (Hnew _ v E) as [H|(_ & H & _)]; [now rewrite H|].
    exfalso. replace j with (Nat.min j 14) in H by lia.
    rewrite <- take_take in H. apply In_take in H. simpl in H.
    intuition discriminate.
  - destruct (annotations st !! "Breadcrumbs") as [w|] eqn:Ew; [|reflexivity].
    destruct (report_prefix_facts rt "AtExit" j _ st' Hp) as (Ha & _).
    simpl in Ha. rewrite (lookup_weaken _ _ _ _ Ew Ha) in E. discriminate.
Qed.

Lemma HandleExit_active_aborts_witness :
  exists st', HandleExit Sample.runtime [] Sample.state = Aborted st'.
Proof.
  destruct (HandleExit_active_aborts Sample.runtime [] Sample.state
              (fun j => eq_refl) eq_refl) as [Hactive _].
  destruct (Hactive eq_refl) as (st' & Hr & _).
  exists st'. exact Hr.
Defined.

(** ** What the assembly does when the library hands the text over *)

(** The rest of the section reads [HandleCrash] under the assumption its
    author made, that a json value converts to a string: then no statement
    raises, and without an outside fault the assembly runs to its end. *)
Lemma all_steps_succeed rt info j step st :
  (forall v, is_Some (json_as_string rt v)) ->
  nth_error (report_steps rt info) j = Some step ->
  step st <> None.
Proof.
  intros Hconv Hn.
  destruct (Nat.lt_ge_cases j 14%nat) as [Hj|Hj];
    [exact (first_inserts_succeed rt info j step st Hj Hn)|].
  do 14 (destruct j as [|j]; [lia|]).
  destruct j as [|j].
  { injection Hn as <-. unfold annotate_json.
    destruct (Hconv (ComputeBreadcrumbs st)) as [text ->]. discriminate. }
  destruct j as [|j].
  { injection Hn as <-. unfold annotate_json.
    destruct (Hconv (ComputeWarnings st)) as [text ->]. discriminate. }
  destruct j as [|j]; [injection Hn as <-; discriminate|].
  destruct j; discriminate.
Qed.

Lemma HandleCrash_completes_when_converted rt info callAbort st :
  (forall v, is_Some (json_as_string rt v)) ->
  insideCrashMethod st = false ->
  exists st2,
    HandleCrash rt [] info callAbort st
    = (if callAbort then Aborted st2
       else Returned tt (set_insideCrashMethod false st2))
    /\ (forall key, In key report_keys -> is_Some (annotations st2 !! key))
    /\ (annotations st !! "Crash reason" = None ->
        annotations st2 !! "Crash reason" = Some info)
    /\ obs_active st2 = obs_active st.
Proof.
  intros Hconv Hl.
  destruct (HandleCrash_outcome rt [] info callAbort st Hl)
    as [(st2 & Hp & Hr & _) | (j & st' & _ & _ & _ & Hwhy & _)].
  - exists st2. split; [exact Hr|].
    destruct (report_prefix_facts rt info 17 _ st2 Hp)
      as (_ & Hnew & Hin & _ & _ & _ & Ho & _).
    simpl in Hnew, Ho. split; [exact Hin|]. split; [|exact Ho].
    intros Hnone.
    destruct (Hin "Crash reason") as [v Hv];
      [simpl; intuition congruence|].
    destruct (Hnew _ v Hv) as [H|(_ & _ & H)]; [congruence|].
    now rewrite Hv, (H eq_refl).
  - exfalso. destruct Hwhy as [(step & Hn & Hs) | [reason Hf]];
      [|discriminate].
    exact (all_steps_succeed rt info j step st' Hconv Hn Hs).
Qed.

(** Read that way, [HandleExit] on a running engine files a report for
    "AtExit" and returns with the latch released, as its comment says. *)
Lemma HandleExit_reports_when_converted rt st :
  (forall v, is_Some (json_as_string rt v)) ->
  insideCrashMethod st = false ->
  obs_active st = true ->
  exists st',
    HandleExit rt [] st = Returned tt st'
    /\ insideCrashMethod st' = false
    /\ (forall key, In key report_keys -> is_Some (annotations st' !! key))
    /\ (annotations st !! "Crash reason" = None ->
        annotations st' !! "Crash reason" = Some "AtExit").
Proof.
  intros Hconv Hl Ho. unfold HandleExit. rewrite Ho.
  destruct (HandleCrash_completes_when_converted rt "AtExit" false st Hconv Hl)
    as (st2 & Hr & Hin & Hcr & _).
  exists (set_insideCrashMethod false st2). rewrite Hr.
  split; [reflexivity|]. split; [reflexivity|]. split; assumption.
Qed.

(** ** The engine's logs *)

(** C8.  [RequestOBSLog(General)] returns the queued messages in order and
    leaves the queue empty, the other two buffers untouched, so that a
    second call returns the null value; for [Errors] and [Warnings] it
    returns the buffered messages in order and changes nothing. *)
Theorem RequestOBSLog_drains_general_only (st : State) :
  let general := RequestOBSLog General st in
  (forall msgs, json_of_messages msgs
                = match msgs with
                  | [] => JNull
                  | _ => JArr (map JStr msgs)
                  end)
  /\ fst general = json_of_messages (obs_log_general st)
  /\ obs_log_general (snd general) = []
  /\ obs_log_errors (snd general) = obs_log_errors st
  /\ obs_log_warnings (snd general) = obs_log_warnings st
  /\ fst (RequestOBSLog General (snd general)) = JNull
  /\ RequestOBSLog Errors st = (json_of_messages (obs_log_errors st), st)
  /\ RequestOBSLog Warnings st = (json_of_messages (obs_log_warnings st), st).
Proof.
  cbv zeta. split; [exact json_of_messages_shape|]. repeat split.
Qed.

(** * The rest of the crash manager and the display registry *)

(** ** FormatVAString *)

Lemma firstn_written_text (temp : list ascii) (text : string) :
  (String.length text < List.length temp)%nat ->
  firstn (String.length text)
         (snd (Format.vsnprintf (Some text) temp))
  = list_ascii_of_string text.
Proof.
  intros Hlt. unfold Format.vsnprintf. cbn [snd].
  assert (Hlen : List.length (list_ascii_of_string text) = String.length text).
  { clear. induction text as [|a s IH]; simpl; [reflexivity | now rewrite IH]. }
  rewrite (firstn_all2 (list_ascii_of_string text))
    by (rewrite Hlen; lia).
  rewrite firstn_app, Hlen, Nat.sub_diag, firstn_O, app_nil_r.
  apply firstn_all2. rewrite Hlen. lia.
Qed.

Lemma resize_length temp n : List.length (Format.resize temp n) = n.
Proof.
  unfold Format.resize.
  rewrite length_app, repeat_length, length_firstn. lia.
Qed.

Lemma vsnprintf_length text temp :
  (1 <= List.length temp)%nat ->
  List.length (snd (Format.vsnprintf (Some text) temp)) = List.length temp.
Proof.
  intros H. unfold Format.vsnprintf. cbn [snd].
  rewrite length_app. cbn [List.length].
  rewrite length_skipn, !length_firstn. lia.
Qed.

Lemma format_loop_exit fuel expanded temp len :
  (len < List.length temp)%nat ->
  Format.format_loop fuel expanded temp len
  = Format.Formatted (string_of_list_ascii (firstn len temp)).
Proof.
  intros H. destruct fuel; cbn [Format.format_loop];
    destruct (Nat.leb_spec (List.length temp) len); (lia || reflexivity).
Qed.

Lemma format_loop_turn fuel text temp len :
  (List.length temp <= len)%nat ->
  Format.format_loop (S fuel) (Some text) temp len
  = Format.format_loop fuel (Some text)
      (snd (Format.vsnprintf (Some text) (Format.resize temp (len + 1))))
      (String.length text).
Proof.
  intros H. cbn [Format.format_loop].
  destruct (Nat.leb_spec (List.length temp) len) as [_|Hc]; [|lia].
  unfold Format.vsnprintf at 1.
  destruct (Z.ltb_spec (Z.of_nat (String.length text)) 0) as [Hneg|_]; [lia|].
  now rewrite Nat2Z.id.
Qed.

Lemma format_loop_done fuel text temp :
  (String.length text < List.length temp)%nat ->
  Format.format_loop fuel (Some text)
    (snd (Format.vsnprintf (Some text) temp)) (String.length text)
  = Format.Formatted text.
Proof.
  intros Hlt. rewrite format_loop_exit
    by (rewrite vsnprintf_length; lia).
  rewrite firstn_written_text by exact Hlt.
  now rewrite string_of_list_ascii_of_string.
Qed.

Lemma FormatVAString_fuel_formats (text : string) (fuel : nat) :
  Format.FormatVAString_fuel (S (S fuel)) (Some text) = Format.Formatted text.
Proof.
  unfold Format.FormatVAString_fuel.
  rewrite format_loop_turn by (cbn; lia).
  destruct (Nat.lt_ge_cases (String.length text) 64) as [Hshort|Hlong].
  - apply format_loop_done. rewrite resize_length. lia.
  - rewrite format_loop_turn
      by (rewrite vsnprintf_length; rewrite resize_length; lia).
    apply format_loop_done. rewrite resize_length. lia.
Qed.

(** X1.  [FormatVAString] returns the whole expansion of the format, however
    long it is: a text of up to 63 characters after one call of [vsnprintf],
    a longer one after a second call into a buffer of the right size; more
    turns than two change nothing.  When the expansion fails it throws. *)
Theorem FormatVAString_complete (text : string) (n : nat) :
  Format.FormatVAString (Some text) = Format.Formatted text
  /\ Format.FormatVAString_fuel (S (S n)) (Some text) = Format.Formatted text
  /\ Format.FormatVAString None = Format.Thrown.
Proof.
  split; [exact (FormatVAString_fuel_formats text 0)|].
  split; [exact (FormatVAString_fuel_formats text n)|]. reflexivity.
Qed.

(** ** The crash hooks *)

Lemma HandleCrash_fault_aborts rt faults info st :
  exists st', HandleCrash rt faults info true st = Aborted st'.
Proof.
  destruct (insideCrashMethod st) eqn:Hl.
  - exists st. unfold HandleCrash. now rewrite HandleCrash_fuel_unfold, Hl.
  - destruct (HandleCrash_outcome rt faults info true st Hl)
      as [(st2 & _ & Hr & _) | (j & st' & _ & _ & Hr & _)]; eauto.
Qed.

Lemma HandleCrash_ends rt faults info callAbort st :
  (exists st', HandleCrash rt faults info callAbort st = Aborted st')
  \/ (exists st', HandleCrash rt faults info callAbort st = Returned tt st').
Proof.
  destruct (insideCrashMethod st) eqn:Hl.
  - left. exists st. unfold HandleCrash.
    now rewrite HandleCrash_fuel_unfold, Hl.
  - destruct (HandleCrash_outcome rt faults info callAbort st Hl)
      as [(st2 & _ & Hr & _) | (j & st' & _ & _ & Hr & _)]; [|eauto].
    destruct callAbort; eauto.
Qed.

Lemma TryHandleCrash_ways_out
  (rt : Runtime) (destroyOBS_API : State -> option State)
  (faults : list (nat * string)) (_format _crashMessage : string)
  (st : State) :
  (crashIsHandled (handledOBSCrashes st) _format = false
   /\ TryHandleCrash rt destroyOBS_API faults _format _crashMessage st
      = Returned false st)
  \/ (crashIsHandled (handledOBSCrashes st) _format = true
      /\ ((exists st', TryHandleCrash rt destroyOBS_API faults _format
                                      _crashMessage st = Exited 0 st')
          \/ (exists st', TryHandleCrash rt destroyOBS_API faults _format
                                         _crashMessage st = Aborted st'))).
Proof.
  unfold TryHandleCrash.
  destruct (crashIsHandled (handledOBSCrashes st) _format); cbn [negb].
  - right. split; [reflexivity|].
    destruct (destroyOBS_API st) as [st1|].
    + unfold process_exit, HandleExit.
      destruct (obs_active st1).
      * destruct (HandleCrash_ends rt faults "AtExit" false st1)
          as [[st' ->] | [st' ->]]; cbn [bind]; eauto.
      * cbn [bind]. eauto.
    + destruct (HandleCrash_fault_aborts rt faults _crashMessage st)
        as [st' ->]. cbn [bind]. eauto.
  - left. split; reflexivity.
Qed.

(** X2.  [TryHandleCrash] has two ways out only.  It returns false, with
    every global as it was, for a crash that matches no signature; for a
    crash that matches one the process ends inside the call, through
    [exit(0)] or through [abort()].  The final [return true] is never
    reached. *)
Theorem TryHandleCrash_never_returns_true
  (rt : Runtime) (destroyOBS_API : State -> option State)
  (faults : list (nat * string)) (_format _crashMessage : string)
  (st : State) :
  (crashIsHandled (handledOBSCrashes st) _format = false
   /\ TryHandleCrash rt destroyOBS_API faults _format _crashMessage st
      = Returned false st)
  \/ (crashIsHandled (handledOBSCrashes st) _format = true
      /\ ((exists st', TryHandleCrash rt destroyOBS_API faults _format
                                      _crashMessage st = Exited 0 st')
          \/ (exists st', TryHandleCrash rt destroyOBS_API faults _format
                                         _crashMessage st = Aborted st'))).
Proof.
  exact (TryHandleCrash_ways_out rt destroyOBS_API faults _format
                                 _crashMessage st).
Qed.

(** X3.  The quiet shutdown: for a known crash, when [destroyOBS_API]
    returns and leaves the engine stopped, the process exits with status 0
    in the state that the shutdown left, without a report; when it throws,
    the crash is reported after all and the process aborts. *)
Theorem TryHandleCrash_quiet_shutdown
  (rt : Runtime) (destroyOBS_API : State -> option State)
  (faults : list (nat * string)) (_format _crashMessage : string)
  (st : State) :
  crashIsHandled (handledOBSCrashes st) _format = true ->
  (forall st1, destroyOBS_API st = Some st1 -> obs_active st1 = false ->
     TryHandleCrash rt destroyOBS_API faults _format _crashMessage st
     = Exited 0 st1)
  /\ (destroyOBS_API st = None ->
      exists st',
        HandleCrash rt faults _crashMessage true st = Aborted st'
        /\ TryHandleCrash rt destroyOBS_API faults _format _crashMessage st
           = Aborted st').
Proof.
  intros Hk. unfold TryHandleCrash. rewrite Hk. cbn [negb]. split.
  - intros st1 Hd Ho. rewrite Hd. unfold process_exit, HandleExit.
    now rewrite Ho.
  - intros Hd. rewrite Hd.
    destruct (HandleCrash_fault_aborts rt faults _crashMessage st) as [st' Hr].
    exists st'. rewrite Hr. split; reflexivity.
Qed.

Lemma TryHandleCrash_quiet_shutdown_witness :
  exists st',
    TryHandleCrash Sample.runtime (fun _ => None) []
                   "Failed to recreate D3D11 device" "lost device"
                   Sample.state
    = Aborted st'.
Proof.
  destruct (proj2 (TryHandleCrash_quiet_shutdown
                     Sample.runtime (fun _ => None) []
                     "Failed to recreate D3D11 device" "lost device"
                     Sample.state eq_refl) eq_refl) as (st' & _ & H).
  exists st'. exact H.
Defined.

(** X4.  With a message that formats, the engine's crash callback does not
    come back to the engine: the process exits with status 0 or aborts.  The
    terminate handler always ends in [abort()].  The exception filter does
    nothing at all under a debugger and ends in [abort()] without one. *)
Theorem crash_hooks_end_the_process
  (rt : Runtime) (destroyOBS_API : State -> option State)
  (faults : list (nat * string)) (format text : string) (st : State) :
  (exists o, obs_crash_handler rt destroyOBS_API faults format (Some text) st
             = Some o
             /\ ((exists st', o = Exited 0 st')
                 \/ (exists st', o = Aborted st')))
  /\ (exists st', terminate_handler rt faults st = Aborted st')
  /\ unhandled_exception_filter rt true faults st = Returned tt st
  /\ (exists st', unhandled_exception_filter rt false faults st = Aborted st').
Proof.
  split; [|split; [apply HandleCrash_fault_aborts|split;
                   [reflexivity | apply HandleCrash_fault_aborts]]].
  unfold obs_crash_handler.
  unfold Format.FormatVAString. rewrite FormatVAString_fuel_formats.
  eexists. split; [reflexivity|].
  destruct (TryHandleCrash_ways_out
              rt destroyOBS_API faults format text st)
    as [[_ ->] | [_ [[st' ->] | [st' ->]]]]; cbn [bind negb]; eauto.
  right. apply HandleCrash_fault_aborts.
Qed.

(** ** Configure and the signatures *)

Lemma crashIsHandled_app l1 l2 fmt :
  crashIsHandled (l1 ++ l2) fmt
  = crashIsHandled l1 fmt || crashIsHandled l2 fmt.
Proof.
  induction l1 as [|s l1 IH]; cbn [crashIsHandled app]; [reflexivity|].
  destruct (Str.find fmt s); [reflexivity | exact IH].
Qed.

(** X5.  [Configure] only adds: whatever was known before stays known, every
    format string that contains "Failed to recreate D3D11" is known
    afterwards, and a format that was unknown and does not contain it stays
    unknown.  Nothing else in the globals changes. *)
Theorem Configure_adds_D3D11_signature (st : State) (fmt : string) :
  crashIsHandled (handledOBSCrashes (Configure st)) fmt
  = crashIsHandled (handledOBSCrashes st) fmt
    || (match Str.find fmt "Failed to recreate D3D11" with
        | Some _ => true
        | None => false
        end)
  /\ (Str.occurs_in "Failed to recreate D3D11" fmt ->
      crashIsHandled (handledOBSCrashes (Configure st)) fmt = true)
  /\ annotations (Configure st) = annotations st
  /\ breadcrumbs (Configure st) = breadcrumbs st
  /\ warnings (Configure st) = warnings st
  /\ insideCrashMethod (Configure st) = insideCrashMethod st.
Proof.
  unfold Configure. cbn [handledOBSCrashes set_handledOBSCrashes].
  rewrite crashIsHandled_app. cbn [crashIsHandled].
  split; [now destruct (Str.find fmt "Failed to recreate D3D11")|].
  split; [|repeat split].
  intros Hocc. apply (find_from_iff _ fmt 0%nat) in Hocc as [p Hp].
  unfold Str.find. rewrite Hp. apply orb_true_r.
Qed.

Lemma Configure_adds_D3D11_signature_witness :
  crashIsHandled (handledOBSCrashes (Configure Sample.state))
                 "Failed to recreate D3D11 device" = true.
Proof.
  apply (Configure_adds_D3D11_signature Sample.state
           "Failed to recreate D3D11 device").
  exists "", " device". reflexivity.
Defined.

(** X6.  Two edges of the filter.  With no signature configured no crash is
    known.  An empty signature matches every format string, so with it in
    the list every crash is known. *)
Theorem crashIsHandled_edges (handled : list string) (fmt : string) :
  crashIsHandled [] fmt = false
  /\ (In "" handled -> crashIsHandled handled fmt = true).
Proof.
  split; [reflexivity|]. intros Hin. apply crashIsHandled_iff.
  exists "". split; [exact Hin|]. exists "", fmt. reflexivity.
Qed.

Lemma crashIsHandled_edges_witness :
  crashIsHandled ["Failed to recreate D3D11"; ""] "anything at all" = true.
Proof.
  apply (crashIsHandled_edges ["Failed to recreate D3D11"; ""]
                              "anything at all").
  right. left. reflexivity.
Defined.

(** ** The diagnostic log *)

Lemma fold_AddBreadcrumb msgs : forall st,
  breadcrumbs (fold_left (fun s m => AddBreadcrumb m s) msgs st)
  = (breadcrumbs st ++ msgs)%list
  /\ warnings (fold_left (fun s m => AddBreadcrumb m s) msgs st) = warnings st.
Proof.
  induction msgs as [|m msgs IH]; intros st; cbn [fold_left].
  - now rewrite app_nil_r.
  - destruct (IH (AddBreadcrumb m st)) as [-> ->].
    cbn [AddBreadcrumb set_breadcrumbs breadcrumbs warnings].
    now rewrite <- app_assoc.
Qed.

(** X7.  Breadcrumbs come back as they went in: after [ClearBreadcrumbs] and
    any run of [AddBreadcrumb], [ComputeBreadcrumbs] is the array of exactly
    those messages in the order of the calls, and the null value (not an
    empty array) when there were none.  The two logs are kept apart: the
    breadcrumb calls leave [ComputeWarnings] as it was, a warning added
    afterwards leaves [ComputeBreadcrumbs] as it is, and [AddWarning] puts
    its message at the end of the warnings. *)
Theorem breadcrumbs_round_trip (msgs : list string) (st : State) :
  let st' := fold_left (fun s m => AddBreadcrumb m s) msgs
                       (ClearBreadcrumbs st) in
  ComputeBreadcrumbs st'
  = match msgs with
    | [] => JNull
    | _ => JArr (map JStr msgs)
    end
  /\ ComputeWarnings st' = ComputeWarnings st
  /\ (forall w, ComputeBreadcrumbs (AddWarning w st') = ComputeBreadcrumbs st')
  /\ (forall w, ComputeWarnings (AddWarning w st)
                = JArr (map JStr (warnings st ++ [w]))).
Proof.
  cbv zeta. destruct (fold_AddBreadcrumb msgs (ClearBreadcrumbs st)) as [Hb Hw].
  unfold ComputeBreadcrumbs, ComputeWarnings.
  split; [|split; [|split]].
  - rewrite Hb. apply json_of_messages_shape.
  - now rewrite Hw.
  - intros w. reflexivity.
  - intros w. cbn [AddWarning set_warnings warnings].
    rewrite json_of_messages_shape.
    destruct (warnings st ++ [w])%list eqn:E; [|reflexivity].
    now apply app_eq_nil in E as [_ E].
Qed.

(** ** What the report assembly leaves alone *)

Lemma annotate_leaves_logs key v : leaves_logs (annotate key v).
Proof.
  intros st st' H. injection H as <-. cbn. repeat split; try reflexivity.
  now left.
Qed.

Lemma annotate_status_leaves_logs (f : State -> string) key :
  leaves_logs (fun st => annotate key (f st) st).
Proof.
  intros st st' H. injection H as <-. cbn. repeat split; try reflexivity.
  now left.
Qed.

Lemma annotate_bytes_leaves_logs rt key bytes rest :
  leaves_logs (annotate_bytes rt key bytes rest).
Proof.
  intros st st' H. unfold annotate_bytes in H.
  destruct (PrettyBytes (printf_ties rt) (to_uint64 bytes)); [|discriminate].
  exact (annotate_leaves_logs _ _ st st' H).
Qed.

Lemma annotate_json_leaves_logs rt key (f : State -> json) :
  leaves_logs (fun st => annotate_json rt key (f st) st).
Proof.
  intros st st' H. unfold annotate_json in H.
  destruct (json_as_string rt (f st)); [|discriminate].
  exact (annotate_leaves_logs _ _ st st' H).
Qed.

Lemma annotate_log_leaves_logs rt key type :
  leaves_logs (fun st => let '(log, st') := RequestOBSLog type st in
                         annotate key (dump4 rt log) st').
Proof.
  intros st st' H. destruct type; cbn in H; injection H as <-; cbn;
    repeat split; try reflexivity; auto.
Qed.

Lemma setup_leaves_logs rt :
  leaves_logs (fun st => Some (snd (SetupCrashpad rt st))).
Proof.
  intros st st' H. injection H as <-. unfold SetupCrashpad.
  repeat match goal with |- context [if ?c then _ else _] => destruct c end;
    cbn; repeat split; try reflexivity; now left.
Qed.

Lemma report_steps_leave_logs rt info :
  Forall leaves_logs (report_steps rt info).
Proof.
  unfold report_steps. apply Forall_app. split.
  - unfold insert_steps.
    repeat match goal with
           | |- Forall _ _ => constructor
           end;
      first [ apply annotate_bytes_leaves_logs
            | apply annotate_json_leaves_logs with (f := ComputeBreadcrumbs)
            | apply annotate_json_leaves_logs with (f := ComputeWarnings)
            | apply annotate_log_leaves_logs
            | apply annotate_leaves_logs
            | apply (annotate_status_leaves_logs
                       (fun st => if obs_active st then "initialized"
                                  else "shutdown")) ].
  - constructor; [apply setup_leaves_logs | constructor].
Qed.

Lemma steps_prefix_leaves_logs steps : forall n st st',
  Forall leaves_logs steps ->
  steps_prefix n steps st = Some st' ->
  breadcrumbs st' = breadcrumbs st
  /\ warnings st' = warnings st
  /\ handledOBSCrashes st' = handledOBSCrashes st
  /\ obs_log_errors st' = obs_log_errors st
  /\ obs_log_warnings st' = obs_log_warnings st
  /\ obs_active st' = obs_active st
  /\ (obs_log_general st' = obs_log_general st \/ obs_log_general st' = []).
Proof.
  induction steps as [|step steps IH]; intros n st st' Hall H.
  - destruct n; cbn in H; [injection H as <-|discriminate].
    repeat split; try reflexivity. now left.
  - destruct n; cbn in H; [injection H as <-; repeat split; now try left|].
    inversion Hall as [|? ? Hk Hrest]; subst.
    destruct (step st) as [s1|] eqn:E; [|discriminate].
    destruct (Hk st s1 E) as (A1 & A2 & A3 & A4 & A5 & A6 & A7).
    destruct (IH n s1 st' Hrest H) as (B1 & B2 & B3 & B4 & B5 & B6 & B7).
    repeat split; try congruence.
    destruct B7 as [B7|B7]; [|now right].
    destruct A7 as [A7|A7]; [left|right]; congruence.
Qed.

(** X8.  Whatever way an invocation of [HandleCrash] ends, it ends with the
    globals in a definite state in which the breadcrumbs, the warnings, the
    known-crash signatures and the engine's error and warning buffers are
    what they were; the report reads them and never clears them.  Only the
    general log queue can differ, and then it is empty. *)
Theorem HandleCrash_leaves_diagnostics
  (rt : Runtime) (faults : list (nat * string)) (info : string)
  (callAbort : bool) (st : State) :
  exists st',
    final_state (HandleCrash rt faults info callAbort st) = Some st'
    /\ breadcrumbs st' = breadcrumbs st
    /\ warnings st' = warnings st
    /\ handledOBSCrashes st' = handledOBSCrashes st
    /\ obs_log_errors st' = obs_log_errors st
    /\ obs_log_warnings st' = obs_log_warnings st
    /\ obs_active st' = obs_active st
    /\ (obs_log_general st' = obs_log_general st \/ obs_log_general st' = []).
Proof.
  destruct (insideCrashMethod st) eqn:Hl.
  - exists st. unfold HandleCrash. rewrite HandleCrash_fuel_unfold, Hl.
    repeat split; try reflexivity. now left.
  - pose proof (report_steps_leave_logs rt info) as Hall.
    destruct (HandleCrash_outcome rt faults info callAbort st Hl)
      as [(st2 & Hp & Hr & _) | (j & s & _ & Hp & Hr & _)]; rewrite Hr.
    + pose proof (steps_prefix_leaves_logs _ _ _ _ Hall Hp) as Hs.
      destruct callAbort;
        [exists st2 | exists (set_insideCrashMethod false st2)];
        (split; [reflexivity|exact Hs]).
    + pose proof (steps_prefix_leaves_logs _ _ _ _ Hall Hp) as Hs.
      exists s. split; [reflexivity|exact Hs].
Qed.

(** ** SetupCrashpad called more than once *)

Lemma SetupCrashpad_times_S n rt st :
  SetupCrashpad_times (S n) rt st
  = snd (SetupCrashpad rt (SetupCrashpad_times n rt st)).
Proof.
  revert st. induction n as [|n IH]; intros st; [reflexivity|].
  change (SetupCrashpad_times (S (S n)) rt st)
    with (SetupCrashpad_times (S n) rt (snd (SetupCrashpad rt st))).
  rewrite IH. reflexivity.
Qed.

Lemma SetupCrashpad_fields rt st :
  arguments (snd (SetupCrashpad rt st))
  = (arguments st ++ ["--no-rate-limit"])%list
  /\ annotations (snd (SetupCrashpad rt st)) = annotations st
  /\ insideCrashMethod (snd (SetupCrashpad rt st)) = insideCrashMethod st
  /\ start_requests (snd (SetupCrashpad rt st))
     = (start_requests st
        ++ (if database_ok rt
            then [(annotations st, arguments st ++ ["--no-rate-limit"])]
            else []))%list.
Proof.
  unfold SetupCrashpad.
  destruct (database_ok rt), (start_handler_ok rt), (wait_handler_ok rt); cbn;
    repeat split; try reflexivity; now rewrite ?app_nil_r.
Qed.

(** X9.  [SetupCrashpad] pushes "--no-rate-limit" onto the global argument
    list at every call, and nothing ever removes it: after [n] calls the
    list has grown by [n] copies, and the [k]-th call has started the
    handler with [k] of them.  The handler is started exactly when the
    database could be opened, with the annotation map as it is at that
    moment; the map and the reentrancy latch are left alone.  The call
    reports success only if all three crashpad steps succeeded. *)
Theorem SetupCrashpad_accumulates_arguments
  (rt : Runtime) (st : State) (n : nat) :
  let st' := SetupCrashpad_times n rt st in
  arguments st' = (arguments st ++ repeat "--no-rate-limit" n)%list
  /\ annotations st' = annotations st
  /\ insideCrashMethod st' = insideCrashMethod st
  /\ start_requests st'
     = (start_requests st
        ++ (if database_ok rt
            then map (fun k => (annotations st,
                                arguments st ++ repeat "--no-rate-limit" (S k)))
                     (seq 0 n)
            else []))%list
  /\ fst (SetupCrashpad rt st')
     = database_ok rt && start_handler_ok rt && wait_handler_ok rt.
Proof.
  cbv zeta. split; [|split; [|split; [|split]]].
  - induction n as [|n IH]; [cbn; now rewrite app_nil_r|].
    rewrite SetupCrashpad_times_S.
    destruct (SetupCrashpad_fields rt (SetupCrashpad_times n rt st))
      as (-> & _).
    rewrite IH, <- app_assoc. f_equal.
    change ["--no-rate-limit"] with (repeat "--no-rate-limit" 1).
    rewrite <- repeat_app. f_equal. lia.
  - induction n as [|n IH]; [reflexivity|].
    rewrite SetupCrashpad_times_S.
    destruct (SetupCrashpad_fields rt (SetupCrashpad_times n rt st))
      as (_ & -> & _). exact IH.
  - induction n as [|n IH]; [reflexivity|].
    rewrite SetupCrashpad_times_S.
    destruct (SetupCrashpad_fields rt (SetupCrashpad_times n rt st))
      as (_ & _ & -> & _). exact IH.
  - assert (Hargs : forall m, arguments (SetupCrashpad_times m rt st)
                    = (arguments st ++ repeat "--no-rate-limit" m)%list).
    { induction m as [|m IH]; [cbn; now rewrite app_nil_r|].
      rewrite SetupCrashpad_times_S.
      destruct (SetupCrashpad_fields rt (SetupCrashpad_times m rt st))
        as (-> & _).
      rewrite IH, <- app_assoc. f_equal.
      change ["--no-rate-limit"] with (repeat "--no-rate-limit" 1).
      rewrite <- repeat_app. f_equal. lia. }
    assert (Hann : forall m, annotations (SetupCrashpad_times m rt st)
                             = annotations st).
    { induction m as [|m IH]; [reflexivity|].
      rewrite SetupCrashpad_times_S.
      destruct (SetupCrashpad_fields rt (SetupCrashpad_times m rt st))
        as (_ & -> & _). exact IH. }
    induction n as [|n IH].
    + cbn. destruct (database_ok rt); now rewrite app_nil_r.
    + rewrite SetupCrashpad_times_S.
      destruct (SetupCrashpad_fields rt (SetupCrashpad_times n rt st))
        as (_ & _ & _ & ->).
      rewrite IH, Hargs, Hann. destruct (database_ok rt).
      * rewrite <- app_assoc. f_equal.
        rewrite seq_S, map_app. cbn [map Nat.add]. f_equal. f_equal. f_equal.
        rewrite <- app_assoc. f_equal.
        change ["--no-rate-limit"] with (repeat "--no-rate-limit" 1).
        rewrite <- repeat_app. f_equal. lia.
      * now rewrite !app_nil_r.
  - unfold SetupCrashpad.
    destruct (database_ok rt), (start_handler_ok rt), (wait_handler_ok rt);
      reflexivity.
Qed.

(** ** The report never reaches crashpad *)

Lemma annotate_leaves_crashpad key v : leaves_crashpad (annotate key v).
Proof. intros st st' H. injection H as <-. split; reflexivity. Qed.

Lemma annotate_fun_leaves_crashpad (f : State -> string) key :
  leaves_crashpad (fun st => annotate key (f st) st).
Proof. intros st st' H. injection H as <-. split; reflexivity. Qed.

Lemma annotate_bytes_leaves_crashpad rt key bytes rest :
  leaves_crashpad (annotate_bytes rt key bytes rest).
Proof.
  intros st st' H. unfold annotate_bytes in H.
  destruct (PrettyBytes (printf_ties rt) (to_uint64 bytes)); [|discriminate].
  exact (annotate_leaves_crashpad _ _ st st' H).
Qed.

Lemma annotate_json_leaves_crashpad rt key (f : State -> json) :
  leaves_crashpad (fun st => annotate_json rt key (f st) st).
Proof.
  intros st st' H. unfold annotate_json in H.
  destruct (json_as_string rt (f st)); [|discriminate].
  exact (annotate_leaves_crashpad _ _ st st' H).
Qed.

Lemma annotate_log_leaves_crashpad rt key type :
  leaves_crashpad (fun st => let '(log, st') := RequestOBSLog type st in
                             annotate key (dump4 rt log) st').
Proof.
  intros st st' H. destruct type; cbn in H; injection H as <-;
    split; reflexivity.
Qed.

Lemma insert_steps_leave_crashpad rt info :
  Forall leaves_crashpad (insert_steps rt info).
Proof.
  unfold insert_steps.
  repeat match goal with
         | |- Forall _ _ => constructor
         end;
    first [ apply annotate_bytes_leaves_crashpad
          | apply annotate_json_leaves_crashpad with (f := ComputeBreadcrumbs)
          | apply annotate_json_leaves_crashpad with (f := ComputeWarnings)
          | apply annotate_log_leaves_crashpad
          | apply annotate_leaves_crashpad
          | apply (annotate_fun_leaves_crashpad
                     (fun st => if obs_active st then "initialized"
                                else "shutdown")) ].
Qed.

Lemma steps_prefix_leaves_crashpad steps : forall n st st',
  Forall leaves_crashpad steps ->
  steps_prefix n steps st = Some st' ->
  arguments st' = arguments st /\ start_requests st' = start_requests st.
Proof.
  induction steps as [|step steps IH]; intros n st st' Hall H.
  - destruct n; cbn in H; [injection H as <-; split; reflexivity|discriminate].
  - destruct n; cbn in H; [injection H as <-; split; reflexivity|].
    inversion Hall as [|? ? Hk Hrest]; subst.
    destruct (step st) as [s1|] eqn:E; [|discriminate].
    destruct (Hk st s1 E) as [A1 A2].
    destruct (IH n s1 st' Hrest H) as [B1 B2]. split; congruence.
Qed.

Lemma steps_prefix_split (steps : list Step) : forall a b st,
  steps_prefix (a + b) steps st
  = match steps_prefix a steps st with
    | Some s => steps_prefix b (skipn a steps) s
    | None => None
    end.
Proof.
  induction steps as [|step steps IH]; intros a b st.
  - destruct a; [reflexivity|]. reflexivity.
  - destruct a as [|a]; [reflexivity|].
    cbn [Nat.add steps_prefix skipn].
    destruct (step st) as [s1|]; [apply IH | reflexivity].
Qed.

Lemma steps_prefix_keeps_drained steps : forall n st st',
  Forall leaves_logs steps ->
  obs_log_general st = [] ->
  steps_prefix n steps st = Some st' ->
  obs_log_general st' = [].
Proof.
  intros n st st' Hall H0 Hp.
  destruct (steps_prefix_leaves_logs steps n st st' Hall Hp)
    as (_ & _ & _ & _ & _ & _ & [H|H]); congruence.
Qed.

Lemma general_log_step_drains rt info s9 s10 :
  steps_prefix 1 (skipn 9 (report_steps rt info)) s9 = Some s10 ->
  obs_log_general s10 = [].
Proof.
  change (skipn 9 (report_steps rt info))
    with ((fun st => let '(log, st') := RequestOBSLog General st in
                     annotate "OBS log general" (dump4 rt log) st')
          :: skipn 10 (report_steps rt info)).
  cbn [steps_prefix]. cbn [RequestOBSLog annotate].
  intros H. injection H as <-. reflexivity.
Qed.

(** X10.  With the json library's conversion no invocation of [HandleCrash]
    reaches [SetupCrashpad]: whatever the fault plan and the value of
    [callAbort], the process ends in [abort()] with the handler's arguments
    and the record of its starts as they were, so the crashpad handler is
    never started with the annotations of the report.  An invocation that
    passes the latch and is not cut short by an outside fault has by then
    emptied the engine's general log queue. *)
Theorem HandleCrash_never_reaches_crashpad
  (rt : Runtime) (faults : list (nat * string)) (info : string)
  (callAbort : bool) (st : State) :
  (forall j, json_as_string rt j = nlohmann_as_string j) ->
  exists st',
    HandleCrash rt faults info callAbort st = Aborted st'
    /\ arguments st' = arguments st
    /\ start_requests st' = start_requests st
    /\ (faults = [] -> insideCrashMethod st = false ->
        obs_log_general st' = []).
Proof.
  intros Hconv. destruct (insideCrashMethod st) eqn:Hl.
  - exists st. unfold HandleCrash. rewrite HandleCrash_fuel_unfold, Hl.
    repeat split. discriminate.
  - destruct (HandleCrash_aborts_before_breadcrumbs
                rt faults info callAbort st Hconv Hl)
      as (j & st' & Hj & Hp & Hr & Hfull).
    exists st'. split; [exact Hr|].
    assert (Hins : steps_prefix j (insert_steps rt info)
                                (set_insideCrashMethod true st) = Some st').
    { unfold report_steps in Hp. rewrite steps_prefix_app in Hp.
      change (List.length (insert_steps rt info)) with 16%nat in Hp.
      destruct (Nat.leb_spec j 16); [exact Hp | lia]. }
    destruct (steps_prefix_leaves_crashpad _ _ _ _
                (insert_steps_leave_crashpad rt info) Hins) as [Ha Hs].
    split; [exact Ha|]. split; [exact Hs|].
    intros Hf _. specialize (Hfull Hf). subst j.
    change 14%nat with (9 + (1 + 4))%nat in Hp.
    rewrite steps_prefix_split in Hp.
    destruct (steps_prefix 9 (report_steps rt info)
                           (set_insideCrashMethod true st)) as [s9|];
      [|discriminate].
    rewrite steps_prefix_split in Hp.
    destruct (steps_prefix 1 (skipn 9 (report_steps rt info)) s9)
      as [s10|] eqn:E10; [|discriminate].
    apply general_log_step_drains in E10.
    refine (steps_prefix_keeps_drained _ _ _ _ _ E10 Hp).
    apply Forall_drop, Forall_drop, report_steps_leave_logs.
Qed.

Lemma HandleCrash_never_reaches_crashpad_witness :
  exists st',
    HandleCrash Sample.runtime [] "boom" false Sample.state = Aborted st'
    /\ start_requests st' = start_requests Sample.state.
Proof.
  destruct (HandleCrash_never_reaches_crashpad
              Sample.runtime [] "boom" false Sample.state
              (fun j => eq_refl)) as (st' & Hr & _ & Hs & _).
  exists st'. split; [exact Hr | exact Hs].
Defined.

(** ** The process list *)

Lemma json_push_back_pair_obj fs key v :
  json_push_back_pair (JObj fs) key v
  = JObj (if existsb (fun kv => String.eqb (fst kv) key) fs then fs
          else (fs ++ [(key, v)])%list).
Proof.
  cbn [json_push_back_pair].
  now destruct (existsb (fun kv => String.eqb (fst kv) key) fs).
Qed.

Lemma find_key_app (fs gs : list (string * json)) key :
  List.find (fun kv => String.eqb (fst kv) key) (fs ++ gs)
  = match List.find (fun kv => String.eqb (fst kv) key) fs with
    | Some kv => Some kv
    | None => List.find (fun kv => String.eqb (fst kv) key) gs
    end.
Proof.
  induction fs as [|kv fs IH]; cbn [app List.find]; [reflexivity|].
  now destruct (String.eqb (fst kv) key).
Qed.

Lemma find_key_existsb (fs : list (string * json)) key :
  existsb (fun kv => String.eqb (fst kv) key) fs
  = match List.find (fun kv => String.eqb (fst kv) key) fs with
    | Some _ => true
    | None => false
    end.
Proof.
  induction fs as [|kv fs IH]; cbn [existsb List.find]; [reflexivity|].
  now destruct (String.eqb (fst kv) key).
Qed.

Lemma process_fold_lookup procs : forall fs name,
  NoDup (map fst fs) ->
  exists gs,
    fold_left process_step procs (JObj fs) = JObj gs
    /\ NoDup (map fst gs)
    /\ json_lookup name (JObj gs)
       = match json_lookup name (JObj fs) with
         | Some v => Some v
         | None =>
             match first_pid procs name with
             | Some pid => Some (JStr (to_string pid))
             | None => None
             end
         end.
Proof.
  induction procs as [|[pid oname] procs IH]; intros fs name Hnd.
  - exists fs. cbn [fold_left first_pid List.find]. split; [reflexivity|].
    split; [exact Hnd|]. now destruct (json_lookup name (JObj fs)).
  - cbn [fold_left]. unfold process_step at 2. cbn [fst snd].
    unfold first_pid. cbn [List.find fst snd].
    destruct (Z.eqb_spec pid 0) as [->|Hpid]; cbn [negb andb].
    { apply IH. exact Hnd. }
    destruct oname as [n|]; [|apply IH; exact Hnd].
    rewrite json_push_back_pair_obj, find_key_existsb.
    destruct (List.find (fun kv => String.eqb (fst kv) n) fs) as [kv|] eqn:Ef.
    + destruct (IH fs name Hnd) as (gs & Hg & Hn & Hl).
      exists gs. split; [exact Hg|]. split; [exact Hn|]. rewrite Hl.
      destruct (String.eqb_spec n name) as [->|Hne]; [|reflexivity].
      cbn [json_lookup]. rewrite Ef. reflexivity.
    + assert (Hnotin : ~ In n (map fst fs)).
      { intros Hin. apply in_map_iff in Hin as ([k v] & Hk & Hin).
        cbn [fst] in Hk. subst k.
        pose proof (find_none _ _ Ef _ Hin) as Hc. cbn [fst] in Hc.
        now rewrite String.eqb_refl in Hc. }
      assert (Hnd' : NoDup (map fst (fs ++ [(n, JStr (to_string pid))]))).
      { rewrite map_app. cbn [map fst].
        apply NoDup_app. split; [exact Hnd|]. split.
        - intros x Hx Hx'. apply list_elem_of_In in Hx, Hx'.
          destruct Hx' as [<-|[]]. exact (Hnotin Hx).
        - apply NoDup_singleton. }
      destruct (IH (fs ++ [(n, JStr (to_string pid))])%list name Hnd')
        as (gs & Hg & Hn & Hl).
      exists gs. split; [exact Hg|]. split; [exact Hn|]. rewrite Hl.
      cbn [json_lookup]. rewrite find_key_app.
      destruct (List.find (fun kv => String.eqb (fst kv) name) fs) as [kv|];
        [reflexivity|].
      cbn [List.find fst snd].
      destruct (String.eqb_spec n name) as [->|Hne]; reflexivity.
Qed.

(** X11.  [RequestProcessList] is the number 1 when the processes cannot be
    listed.  Otherwise it is an object whose keys are distinct module names;
    under a name it holds the identifier, as a decimal string, of the first
    process in the table that has this name and a non-zero identifier, and
    later processes of the same name leave no trace; a name that no such
    process has is absent. *)
Theorem RequestProcessList_first_pid_per_name (rt : Runtime) (name : string) :
  (process_table rt = None -> RequestProcessList rt = JNum 1)
  /\ (forall procs, process_table rt = Some procs ->
        exists fields,
          RequestProcessList rt = JObj fields
          /\ NoDup (map fst fields)
          /\ json_lookup name (RequestProcessList rt)
             = match first_pid procs name with
               | Some pid => Some (JStr (to_string pid))
               | None => None
               end).
Proof.
  unfold RequestProcessList. split; [now intros ->|].
  intros procs ->.
  destruct (process_fold_lookup procs [] name (NoDup_nil_2))
    as (gs & Hg & Hn & Hl).
  change (fold_left _ procs (JObj []))
    with (fold_left process_step procs (JObj [])).
  exists gs. rewrite Hg. split; [reflexivity|]. split; [exact Hn | exact Hl].
Qed.

Lemma RequestProcessList_first_pid_per_name_witness :
  json_lookup "obs64.exe" (RequestProcessList Sample.runtime)
  = Some (JStr "812").
Proof.
  destruct (proj2 (RequestProcessList_first_pid_per_name
                     Sample.runtime "obs64.exe") _ eq_refl)
    as (fields & _ & _ & Hl).
  rewrite Hl. reflexivity.
Defined.

(** ** More on the call stack *)

Lemma loop_body_emits_entry rt i st n sa p l :
  resolution rt i = Some (n, sa, p, l) ->
  String.eqb (file_of_path p) "util-crashmanager.cpp" = false ->
  exists e,
    loop_body rt i st
    = {| missingFrames := [];
         crashedMethod := n;
         result := (result st ++ [e])%list |}
    /\ fn_name e = n
    /\ filename e = file_of_path p
    /\ lineno e = l
    /\ symbol_addr e = "0x" +:+ Str.tolower (to_string sa)
    /\ frames_omitted e
       = match last (missingFrames st) with
         | Some back => Some (to_string back, to_string (Z.of_nat i))
         | None => None
         end.
Proof.
  unfold resolution, loop_body. intros H Hf.
  destruct (SymFromAddr rt _) as [[n' sa']|]; [|discriminate].
  destruct (SymGetLineFromAddr64 rt _) as [[p' l']|]; [|discriminate].
  injection H as -> -> -> ->. rewrite Hf.
  eexists. split; [reflexivity|]. repeat split; reflexivity.
Qed.

Lemma loop_entries rt skip n : forall st,
  (n <= frames rt)%nat ->
  (forall z, In z (missingFrames st) ->
     exists j, z = Z.of_nat j /\ (n <= j < frames rt)%nat
               /\ resolution rt j = None) ->
  Forall (entry_of_frame rt skip) (result st) ->
  Forall (entry_of_frame rt skip)
         (result (fold_left (fun st i => loop_body rt i st)
                            (loop_indices n skip) st)).
Proof.
  induction n as [|i IH]; intros st Hn Hmiss Hres; cbn [loop_indices fold_left];
    [exact Hres|].
  destruct (Z.ltb_spec (Z.of_nat i) skip) as [Hlt|Hge]; [exact Hres|].
  cbn [fold_left]. apply IH; [lia| |].
  - destruct (resolution rt i) as [[[[nm sa] p] l]|] eqn:Hr.
    + destruct (String.eqb (file_of_path p) "util-crashmanager.cpp") eqn:Hf.
      * rewrite (loop_body_self rt i st nm sa p l Hr Hf).
        intros z Hz. destruct (Hmiss z Hz) as (j & -> & Hj & Hnone).
        exists j. repeat split; (lia || assumption).
      * destruct (loop_body_emits_entry rt i st nm sa p l Hr Hf)
          as (e & -> & _). intros z [].
    + rewrite (loop_body_missing rt i st Hr). cbn [missingFrames].
      intros z Hz. apply in_app_or in Hz as [Hz|[<-|[]]].
      * destruct (Hmiss z Hz) as (j & -> & Hj & Hnone).
        exists j. repeat split; (lia || assumption).
      * exists i. repeat split; (lia || assumption).
  - destruct (resolution rt i) as [[[[nm sa] p] l]|] eqn:Hr.
    + destruct (String.eqb (file_of_path p) "util-crashmanager.cpp") eqn:Hf.
      * now rewrite (loop_body_self rt i st nm sa p l Hr Hf).
      * destruct (loop_body_emits_entry rt i st nm sa p l Hr Hf)
          as (e & -> & Hnm & Hfile & Hline & Hsym & Hom).
        cbn [result]. apply Forall_app. split; [exact Hres|].
        constructor; [|constructor].
        exists i, nm, sa, p, l.
        split; [lia|]. split; [lia|]. split; [exact Hr|].
        split; [exact Hnm|]. split; [exact Hfile|].
        split; [rewrite Hfile; now apply String.eqb_neq|].
        split; [exact Hline|]. split; [exact Hsym|].
        destruct (last (missingFrames st)) as [back|] eqn:El; [|now left].
        right. assert (Hin : In back (missingFrames st)).
        { apply list_elem_of_In. now apply last_Some_elem_of. }
        destruct (Hmiss back Hin) as (j & -> & Hj & Hnone).
        exists j. split; [exact Hom|]. split; [lia | exact Hnone].
    + now rewrite (loop_body_missing rt i st Hr).
Qed.

Lemma loop_indices_length n skip :
  0 <= skip ->
  List.length (loop_indices n skip) = (n - Z.to_nat skip)%nat.
Proof.
  intros H. rewrite loop_indices_descending by exact H.
  now rewrite length_rev, length_seq.
Qed.

Lemma omap_length_le {A B} (f : A -> option B) (l : list A) :
  (List.length (omap f l) <= List.length l)%nat.
Proof.
  induction l as [|x l IH]; [reflexivity|].
  change (omap f (x :: l))
    with (match f x with Some y => y :: omap f l | None => omap f l end).
  destruct (f x); cbn [List.length]; lia.
Qed.

Lemma frames_le_shown rt : (frames rt <= 50)%nat.
Proof. unfold frames, MAX_CALLERS_SHOWN. lia. Qed.

(** X12.  Every entry that [RewindCallStack] returns stands for a frame
    between [skip] and the cut at fifty that resolved, carries that frame's
    name, file, line and symbol address, and never lies in
    "util-crashmanager.cpp"; a "frames omitted" attribute names, first, a
    frame above the entry's own that did not resolve and, second, the
    entry's own frame. *)
Theorem RewindCallStack_entries_are_resolved_frames
  (rt : Runtime) (skip : Z) (crashedMethod0 : string) :
  0 <= skip < 2 ^ 31 ->
  Forall (entry_of_frame rt skip)
         (fst (RewindCallStack_frames rt skip crashedMethod0)).
Proof.
  intros Hskip. unfold RewindCallStack_frames.
  destruct (capture_available rt); cbn [negb fst]; [|constructor].
  assert (Hint : int_of_uint32 skip = skip).
  { unfold int_of_uint32. destruct (Z.ltb_spec skip (2 ^ 31)); lia. }
  rewrite Hint. apply loop_entries; [lia| |constructor].
  intros z [].
Qed.

Lemma RewindCallStack_entries_are_resolved_frames_witness :
  Forall (entry_of_frame Sample.runtime 0)
         (fst (RewindCallStack_frames Sample.runtime 0 "")).
Proof.
  apply (RewindCallStack_entries_are_resolved_frames Sample.runtime 0 "").
  lia.
Defined.

(** X13.  The array is bounded: it never has more entries than frames were
    kept after the first [skip], hence never more than fifty, whatever the
    depth of the stack.  It is empty, and [crashedMethod] is left as the
    caller set it, when the capture routine is missing and when [skip]
    reaches the number of kept frames. *)
Theorem RewindCallStack_bounded
  (rt : Runtime) (skip : Z) (crashedMethod0 : string) :
  0 <= skip < 2 ^ 31 ->
  let out := RewindCallStack_frames rt skip crashedMethod0 in
  (List.length (fst out) <= frames rt - Z.to_nat skip)%nat
  /\ (List.length (fst out) <= 50)%nat
  /\ (capture_available rt = false -> out = ([], crashedMethod0))
  /\ (Z.of_nat (frames rt) <= skip -> out = ([], crashedMethod0)).
Proof.
  intros Hskip out.
  assert (Hint : int_of_uint32 skip = skip).
  { unfold int_of_uint32. destruct (Z.ltb_spec skip (2 ^ 31)); lia. }
  assert (Hlen : (List.length (fst out) <= frames rt - Z.to_nat skip)%nat).
  { unfold out, RewindCallStack_frames.
    destruct (capture_available rt); cbn [negb fst]; [|cbn; lia].
    pose proof (loop_fold_names rt
                  (loop_indices (frames rt) (int_of_uint32 skip))
                  {| missingFrames := []; crashedMethod := crashedMethod0;
                     result := [] |}) as [Hn _].
    cbn [result map app] in Hn.
    apply (f_equal (@List.length string)) in Hn. rewrite length_map in Hn.
    rewrite Hn. etransitivity; [apply omap_length_le|].
    rewrite Hint, loop_indices_length by lia. reflexivity. }
  split; [exact Hlen|]. split; [pose proof (frames_le_shown rt); lia|].
  unfold out, RewindCallStack_frames. split.
  - now intros ->.
  - intros Hge. destruct (capture_available rt); cbn [negb]; [|reflexivity].
    rewrite Hint.
    assert (Hnil : loop_indices (frames rt) skip = []).
    { apply length_zero_iff_nil. rewrite loop_indices_length by lia. lia. }
    now rewrite Hnil.
Qed.

Lemma RewindCallStack_bounded_witness :
  (List.length (fst (RewindCallStack_frames Sample.runtime 4 "")) <= 6)%nat.
Proof.
  apply (proj1 (RewindCallStack_bounded Sample.runtime 4 "" ltac:(lia))).
Defined.

(** ** The attributes of an entry *)

Lemma tolower_string_of_uint (d : Decimal.uint) :
  Str.tolower (NilEmpty.string_of_uint d) = NilEmpty.string_of_uint d.
Proof.
  induction d; cbn [NilEmpty.string_of_uint Str.tolower];
    [reflexivity | rewrite IHd; reflexivity ..].
Qed.

Lemma tolower_to_string (z : Z) : Str.tolower (to_string z) = to_string z.
Proof.
  unfold to_string, NilEmpty.string_of_int.
  destruct (Z.to_int z) as [d|d].
  - apply tolower_string_of_uint.
  - cbn [Str.tolower]. rewrite tolower_string_of_uint. reflexivity.
Qed.

Lemma substr_prefix_eqb (pat : string) : forall s,
  String.eqb (Str.substr s 0 (String.length pat)) pat = Str.starts_with pat s.
Proof.
  unfold Str.substr.
  induction pat as [|a pat IH]; intros s.
  - destruct s; reflexivity.
  - destruct s as [|b s]; [reflexivity|].
    cbn [String.length String.substring String.eqb Str.starts_with].
    rewrite IH, (Ascii.eqb_sym b a). reflexivity.
Qed.

Lemma loop_body_marks rt i st :
  Forall entry_marks (result st) ->
  Forall entry_marks (result (loop_body rt i st)).
Proof.
  intros H. unfold loop_body.
  destruct (SymFromAddr rt _) as [[n sa]|]; [|exact H].
  destruct (SymGetLineFromAddr64 rt _) as [[p l]|]; [|exact H].
  destruct (String.eqb (file_of_path p) "util-crashmanager.cpp"); [exact H|].
  cbn [result]. apply Forall_app. split; [exact H|].
  constructor; [|constructor]. split; cbn [in_app fn_name symbol_addr].
  - rewrite <- (substr_prefix_eqb "std::" n), <- (substr_prefix_eqb "__" n).
    reflexivity.
  - exists sa. now rewrite tolower_to_string.
Qed.

(** X14.  The attributes of the entries.  An entry is marked as not being
    application code ("in app" false) exactly when its function name starts
    with "std::" or with "__", and is never marked as application code.  The
    symbol address is the decimal numeral of the address behind the prefix
    "0x": lowering the case changes nothing in it.  The object built for an
    entry gives back every attribute under its key, and has the keys "in
    app" and "frames omitted" only for an entry that has these attributes. *)
Theorem RewindCallStack_entry_attributes
  (rt : Runtime) (skip : Z) (crashedMethod0 : string) (e : frame_entry) :
  Forall entry_marks (fst (RewindCallStack_frames rt skip crashedMethod0))
  /\ fst (RewindCallStack rt skip crashedMethod0)
     = JArr (map entry_json
                 (fst (RewindCallStack_frames rt skip crashedMethod0)))
  /\ json_lookup "function" (entry_json e) = Some (JStr (fn_name e))
  /\ json_lookup "filename" (entry_json e) = Some (JStr (filename e))
  /\ json_lookup "lineno" (entry_json e) = Some (JNum (lineno e))
  /\ json_lookup "instruction addr" (entry_json e)
     = Some (JStr (instruction_addr e))
  /\ json_lookup "symbol addr" (entry_json e) = Some (JStr (symbol_addr e))
  /\ json_lookup "in app" (entry_json e) = JBool <$> in_app e
  /\ json_lookup "frames omitted" (entry_json e)
     = omitted_json <$> frames_omitted e.
Proof.
  split; [|split].
  - unfold RewindCallStack_frames.
    destruct (capture_available rt); cbn [negb fst]; [|constructor].
    generalize (loop_indices (frames rt) (int_of_uint32 skip)).
    intros idx.
    assert (H0 : Forall entry_marks
                   (result {| missingFrames := [];
                              crashedMethod := crashedMethod0;
                              result := [] |})) by constructor.
    revert H0.
    generalize {| missingFrames := []; crashedMethod := crashedMethod0;
                  result := [] |}.
    induction idx as [|i idx IH]; intros st H; cbn [fold_left]; [exact H|].
    apply IH. now apply loop_body_marks.
  - unfold RewindCallStack.
    destruct (RewindCallStack_frames rt skip crashedMethod0). reflexivity.
  - destruct e as [fn file line ia sa [b|] [[x y]|]];
      repeat split; reflexivity.
Qed.

(** ** The file name and the address text of an entry *)

Lemma substring_drop (a : string) : forall (c : ascii) (b : string) (m : nat),
  String.substring (String.length a + 1) m (a +:+ String c b)
  = String.substring 0 m b.
Proof.
  induction a as [|x a IH]; intros c b m; cbn [String.length Nat.add].
  - reflexivity.
  - change (String x a +:+ String c b) with (String x (a +:+ String c b)).
    cbn [String.substring]. apply IH.
Qed.

Lemma substring_all (b : string) : forall m,
  (String.length b <= m)%nat -> String.substring 0 m b = b.
Proof.
  induction b as [|x b IH]; intros m Hm.
  - destruct m; reflexivity.
  - destruct m as [|m]; [cbn in Hm; lia|].
    cbn [String.substring]. rewrite IH; [reflexivity | cbn in Hm; lia].
Qed.

Lemma append_length (a b : string) :
  String.length (a +:+ b) = (String.length a + String.length b)%nat.
Proof.
  induction a as [|x a IH]; [reflexivity|].
  change (String x a +:+ b) with (String x (a +:+ b)).
  cbn [String.length]. now rewrite IH.
Qed.

Lemma rfind_char_from_none (c : ascii) (s : string) : forall pos,
  ~ In c (list_ascii_of_string s) -> Str.rfind_char_from pos s c = None.
Proof.
  induction s as [|x s IH]; intros pos Hn; [reflexivity|].
  cbn [Str.rfind_char_from]. cbn [list_ascii_of_string] in Hn.
  rewrite IH by (intros H; apply Hn; now right).
  destruct (Ascii.eqb_spec x c) as [->|]; [|reflexivity].
  exfalso. apply Hn. now left.
Qed.

Lemma rfind_char_from_last (c : ascii) (b : string) (a : string) : forall pos,
  ~ In c (list_ascii_of_string b) ->
  Str.rfind_char_from pos (a +:+ String c b) c
  = Some (pos + String.length a)%nat.
Proof.
  induction a as [|x a IH]; intros pos Hn.
  - change ("" +:+ String c b) with (String c b).
    cbn [Str.rfind_char_from String.length].
    rewrite (rfind_char_from_none c b) by exact Hn.
    rewrite Ascii.eqb_refl. f_equal. lia.
  - change (String x a +:+ String c b) with (String x (a +:+ String c b)).
    cbn [Str.rfind_char_from String.length]. rewrite IH by exact Hn.
    f_equal. lia.
Qed.

(** X15.  The file name of an entry is what follows the last backslash of
    the path that the symbol engine reports.  A path without any backslash
    gives the empty name, not the path itself: a frame reported under the
    bare name "util-crashmanager.cpp" is therefore not recognised as the
    crash manager's own. *)
Theorem file_of_path_after_last_backslash (dir name : string) :
  ~ In "\"%char (list_ascii_of_string name) ->
  file_of_path (dir +:+ String "\"%char name) = name
  /\ file_of_path name = ""
  /\ String.eqb (file_of_path "util-crashmanager.cpp")
                "util-crashmanager.cpp" = false.
Proof.
  intros Hn. unfold file_of_path, Str.rfind_char, Str.substr. split.
  - rewrite rfind_char_from_last by exact Hn. cbn [Nat.add].
    rewrite substring_drop. apply substring_all.
    rewrite append_length. cbn [String.length]. lia.
  - split; [now rewrite rfind_char_from_none|reflexivity].
Qed.

Lemma file_of_path_after_last_backslash_witness :
  file_of_path ("C:\src" +:+ String "\"%char "main.cpp") = "main.cpp".
Proof.
  apply (file_of_path_after_last_backslash "C:\src" "main.cpp").
  cbn. intros H. repeat (destruct H as [H|H]; [discriminate H|]). exact H.
Defined.

Lemma find_first_not_of_zeros (k : nat) (d : ascii) (rest : string) :
  forall pos, d <> "0"%char ->
  Str.find_first_not_of_from pos
    (string_of_list_ascii (repeat "0"%char k) +:+ String d rest) "0"%char
  = Some (pos + k)%nat.
Proof.
  induction k as [|k IH]; intros pos Hd.
  - cbn [repeat string_of_list_ascii].
    change ("" +:+ String d rest) with (String d rest).
    cbn [Str.find_first_not_of_from].
    destruct (Ascii.eqb_spec d "0"%char); [contradiction|]. f_equal. lia.
  - cbn [repeat string_of_list_ascii].
    change (String "0" ?a +:+ ?b) with (String "0" (a +:+ b)).
    cbn [Str.find_first_not_of_from]. rewrite Ascii.eqb_refl, IH by exact Hd.
    f_equal. lia.
Qed.

Lemma find_first_not_of_all_zeros (k : nat) : forall pos,
  Str.find_first_not_of_from pos (string_of_list_ascii (repeat "0"%char k))
                             "0"%char = None.
Proof.
  induction k as [|k IH]; intros pos; [reflexivity|].
  cbn [repeat string_of_list_ascii Str.find_first_not_of_from].
  rewrite Ascii.eqb_refl. apply IH.
Qed.

Lemma zeros_length k :
  String.length (string_of_list_ascii (repeat "0"%char k)) = k.
Proof. induction k; cbn; congruence. Qed.

(** X16.  The shortening of the printed address removes, together with up to
    four leading zeros, the first digit that is not a zero: of "0...0"
    followed by [d] and [rest] only [rest] is kept.  A text with more than
    four leading zeros, and one made of zeros only, is kept whole. *)
Theorem shorten_address_drops_leading_digit
  (k : nat) (d : ascii) (rest : string) :
  d <> "0"%char ->
  let zeros := string_of_list_ascii (repeat "0"%char k) in
  shorten_address (zeros +:+ String d rest)
  = (if (k <=? 4)%nat then rest else zeros +:+ String d rest)
  /\ shorten_address zeros = zeros.
Proof.
  intros Hd zeros. unfold shorten_address, Str.find_first_not_of, Str.substr.
  split.
  - unfold zeros. rewrite find_first_not_of_zeros by exact Hd. cbn [Nat.add].
    destruct (k <=? 4)%nat; [|reflexivity].
    rewrite <- (zeros_length k) at 1. rewrite substring_drop.
    apply substring_all. rewrite append_length, zeros_length.
    cbn [String.length]. lia.
  - unfold zeros. now rewrite find_first_not_of_all_zeros.
Qed.

Lemma shorten_address_drops_leading_digit_witness :
  shorten_address "00007FF6A1B2C109" = "FF6A1B2C109".
Proof.
  apply (shorten_address_drops_leading_digit 4 "7" "FF6A1B2C109").
  discriminate.
Defined.

(** ** PrettyBytes on exact multiples of a unit *)

Lemma double_of_uint64_exact (m : Z) (k : nat) :
  0 <= m < 1024 ->
  double_of_uint64 (m * 1024 ^ Z.of_nat k) = m * 1024 ^ Z.of_nat k.
Proof.
  intros Hm. unfold double_of_uint64.
  set (b := m * 1024 ^ Z.of_nat k).
  destruct (Z.leb_spec (Z.log2 b - 52) 0) as [He|He]; [reflexivity|].
  set (e := Z.log2 b - 52) in *.
  assert (Hpow : 1024 ^ Z.of_nat k = 2 ^ (10 * Z.of_nat k)).
  { change 1024 with (2 ^ 10). rewrite <- Z.pow_mul_r by lia. reflexivity. }
  assert (Hp : 0 < 2 ^ (10 * Z.of_nat k)) by (apply Z.pow_pos_nonneg; lia).
  assert (Hb : b < 2 ^ (10 * Z.of_nat k + 10)).
  { unfold b. rewrite Hpow, Z.pow_add_r by lia.
    change (2 ^ 10) with 1024. nia. }
  assert (Hbpos : 0 < b).
  { destruct (Z.eq_dec b 0) as [E|E]; [|unfold b in *; rewrite Hpow in *; nia].
    unfold e in He. rewrite E in He. cbn in He. lia. }
  assert (Hlog : Z.log2 b < 10 * Z.of_nat k + 10)
    by (apply Z.log2_lt_pow2; [exact Hbpos|exact Hb]).
  assert (Hek : e <= 10 * Z.of_nat k) by (unfold e; lia).
  assert (Hdiv : b mod 2 ^ e = 0).
  { unfold b. rewrite Hpow.
    replace (10 * Z.of_nat k) with ((10 * Z.of_nat k - e) + e) by lia.
    rewrite Z.pow_add_r by lia. rewrite Z.mul_assoc. apply Z.mod_mul.
    apply Z.pow_nonzero; lia. }
  cbv zeta. rewrite Hdiv.
  assert (Hhalf : 0 < 2 ^ (e - 1)) by (apply Z.pow_pos_nonneg; lia).
  destruct (Z.ltb_spec 0 (2 ^ (e - 1))) as [_|]; [|lia].
  pose proof (Z.div_mod b (2 ^ e) ltac:(apply Z.pow_nonzero; lia)) as Hdm.
  rewrite Hdiv in Hdm. lia.
Qed.

Lemma suffix_loop_exact (m : Z) : forall (k fuel : nat) (count : Q) (s : Z),
  0 <= m < 1024 ->
  (k = 0%nat \/ 1 <= m) ->
  (k <= fuel)%nat ->
  s + Z.of_nat k <= 7 ->
  (count == inject_Z (m * 1024 ^ Z.of_nat k))%Q ->
  snd (suffix_loop fuel count s) = s + Z.of_nat k
  /\ (fst (suffix_loop fuel count s) == inject_Z m)%Q.
Proof.
  induction k as [|k IH]; intros fuel count s Hm Hk Hf Hs Hc.
  - change (1024 ^ Z.of_nat 0) with 1 in Hc. rewrite Z.mul_1_r in Hc.
    assert (Hg : Qle_bool 1024 count = false).
    { destruct (Qle_bool 1024 count) eqn:E; [|reflexivity].
      apply Qle_bool_iff in E. rewrite Hc in E.
      change (1024%Q) with (inject_Z 1024) in E. rewrite <- Zle_Qle in E. lia. }
    destruct fuel as [|fuel]; cbn [suffix_loop]; rewrite ?Hg;
      cbn [andb fst snd];
      (split; [cbn; lia | exact Hc]).
  - destruct Hk as [Hk|Hk]; [discriminate|].
    destruct fuel as [|fuel]; [lia|].
    rewrite Nat2Z.inj_succ, Z.pow_succ_r in Hc by lia.
    assert (Hp : 0 < 1024 ^ Z.of_nat k) by (apply Z.pow_pos_nonneg; lia).
    assert (Hg : Qle_bool 1024 count = true).
    { apply Qle_bool_iff. rewrite Hc.
      change (1024%Q) with (inject_Z 1024). rewrite <- Zle_Qle. nia. }
    assert (Hs7 : (s <? 7) = true) by (apply Z.ltb_lt; lia).
    cbn [suffix_loop]. rewrite Hg, Hs7. cbn [andb].
    assert (Hc' : (count / 1024 == inject_Z (m * 1024 ^ Z.of_nat k))%Q).
    { rewrite Hc.
      replace (m * (1024 * 1024 ^ Z.of_nat k))
        with (1024 * (m * 1024 ^ Z.of_nat k)) by lia.
      rewrite inject_Z_mult. change (inject_Z 1024) with (1024%Q).
      field. }
    destruct (IH fuel (count / 1024)%Q (s + 1) Hm (or_intror Hk)
                 ltac:(lia) ltac:(lia) Hc') as [H1 H2].
    split; [rewrite H1; lia | exact H2].
Qed.

(** X17.  A count that is a whole number [m] below 1024 of the unit numbered
    [k] (bytes for 0, kb for 1, up to eb for 6) is printed as that number
    followed by the unit's suffix, without a decimal place: the conversion
    to [double] and the divisions by 1024 are exact on such a count. *)
Theorem PrettyBytes_exact_multiple
  (tr : tie_rule) (m : Z) (k : nat) (suffix : string) :
  0 <= m < 1024 ->
  (k = 0%nat \/ 1 <= m) ->
  m * 1024 ^ Z.of_nat k < 2 ^ 64 ->
  nth_error suffixes k = Some suffix ->
  PrettyBytes tr (m * 1024 ^ Z.of_nat k) = Some (to_string m +:+ suffix).
Proof.
  intros Hm Hk _ Hsuf.
  assert (Hk6 : (k < 7)%nat).
  { apply (proj1 (nth_error_Some suffixes k)). rewrite Hsuf. discriminate. }
  unfold PrettyBytes. rewrite double_of_uint64_exact by exact Hm.
  destruct (suffix_loop_exact m k 7 (inject_Z (m * 1024 ^ Z.of_nat k)) 0
              Hm Hk ltac:(lia) ltac:(lia) ltac:(reflexivity)) as [Hs Hc].
  destruct (suffix_loop 7 (inject_Z (m * 1024 ^ Z.of_nat k)) 0)
    as [count s]. cbn [fst snd] in Hs, Hc. subst s.
  rewrite Z.add_0_l, Nat2Z.id, Hsuf.
  assert (Hfl : Qfloor count = m) by (rewrite Hc; apply Qfloor_Z).
  assert (Hw : is_whole count = true).
  { apply is_whole_iff. now rewrite Hfl. }
  rewrite Hw. unfold sprintf_d.
  rewrite int_of_double_floor, Hfl; [reflexivity|].
  rewrite Hc. change 0%Q with (inject_Z 0). rewrite <- Zle_Qle. lia.
Qed.

Lemma PrettyBytes_exact_multiple_witness :
  PrettyBytes TiesToEven 536870912 = Some "512mb".
Proof.
  apply (PrettyBytes_exact_multiple TiesToEven 512 2 "mb");
    [lia | right; lia | reflexivity | reflexivity].
Defined.

(** ** IPCValuesToData *)

Lemma IPCValuesToData_from_array fp_text : forall values i items,
  IPCValuesToData_from fp_text values i (JArr items)
  = Some (JArr (items ++ ipc_entries fp_text i values)).
Proof.
  induction values as [|value rest IH]; intros i items.
  - cbn. now rewrite app_nil_r.
  - cbn [IPCValuesToData_from json_push_back_braced json_push_back].
    rewrite IH. cbn [ipc_entries]. rewrite <- app_assoc. reflexivity.
Qed.

(** X18.  [IPCValuesToData] appends to an array one element per value, in
    the order of the values: the pair of the name "arg" followed by the
    position, counted from 0, and the value's text (empty for a binary
    value, "null" for a null one).  A [data] that is null becomes the array
    of these elements as soon as there is one value.  On a [data] that is a
    boolean, a number or a string the first value makes the json library
    raise. *)
Theorem IPCValuesToData_numbers_arguments
  (fp_text : Q -> string) (items : list json)
  (value : ipc_value) (rest : list ipc_value) :
  let values := value :: rest in
  IPCValuesToData fp_text values (JArr items)
  = Some (JArr (items ++ ipc_entries fp_text 0 values))
  /\ IPCValuesToData fp_text values JNull
     = Some (JArr (ipc_entries fp_text 0 values))
  /\ List.length (ipc_entries fp_text 0 values) = List.length values
  /\ (forall (n : nat) (v : ipc_value),
        nth_error values n = Some v ->
        nth_error (ipc_entries fp_text 0 values) n
        = Some (ipc_entry fp_text (Z.of_nat n) v))
  /\ (forall data,
        match data with
        | JBool _ | JNum _ | JStr _ =>
            IPCValuesToData fp_text values data = None
        | _ => True
        end)
  /\ (forall data, IPCValuesToData fp_text [] data = Some data).
Proof.
  cbv zeta. unfold IPCValuesToData.
  assert (Hnth : forall vs i (n : nat) v,
            nth_error vs n = Some v ->
            nth_error (ipc_entries fp_text i vs) n
            = Some (ipc_entry fp_text (i + Z.of_nat n) v)).
  { induction vs as [|w vs IH]; intros i n v H; [destruct n; discriminate|].
    destruct n as [|n]; cbn in H |- *.
    - injection H as <-. now rewrite Z.add_0_r.
    - rewrite (IH (i + 1) n v H). do 2 f_equal. lia. }
  assert (Hlen : forall vs i,
            List.length (ipc_entries fp_text i vs) = List.length vs).
  { induction vs as [|w vs IH]; intros i; cbn; [reflexivity|]. now rewrite IH. }
  repeat split.
  - apply IPCValuesToData_from_array.
  - cbn [IPCValuesToData_from json_push_back_braced json_push_back].
    rewrite IPCValuesToData_from_array. reflexivity.
  - apply Hlen.
  - intros n v H. rewrite (Hnth _ 0 n v H). reflexivity.
  - intros data. destruct data; try exact I; reflexivity.
Qed.

(** * The display registry *)

Lemma on_display_other key c (displays : gmap string Content.Display) k :
  k <> key -> Content.on_display key c displays !! k = displays !! k.
Proof.
  intros Hk. unfold Content.on_display.
  destruct (displays !! key); [|reflexivity].
  apply lookup_insert_ne. congruence.
Qed.

Lemma on_display_same key c (displays : gmap string Content.Display) :
  Content.on_display key c displays !! key
  = Content.receive c <$> displays !! key.
Proof.
  unfold Content.on_display. destruct (displays !! key) eqn:E.
  - now rewrite lookup_insert_eq.
  - now rewrite E.
Qed.

(** X19.  The colour setters pass an alpha of 255 whatever is asked for: an
    argument of 0 takes the default, an argument of 1 is scaled to 255, and
    for every larger argument the scaled value no longer fits the byte it is
    converted to, which leaves the call without a defined result.  A display
    that is found then receives the three colour bytes reduced modulo 256
    with that alpha. *)
Theorem set_color_alpha_is_opaque
  (target : Content.color_target) (key : string) (r g b a : Z)
  (displays : gmap string Content.Display) :
  0 <= a ->
  Content.alpha_byte a = (if a <=? 1 then Some 255 else None)
  /\ (forall displays',
        Content.set_color target key r g b a displays = Some displays' ->
        a <= 1
        /\ displays' !! key
           = Content.receive
               (Content.SetColor target (r mod 256) (g mod 256) (b mod 256)
                                 255)
             <$> displays !! key).
Proof.
  intros Ha.
  assert (Halpha : Content.alpha_byte a = (if a <=? 1 then Some 255 else None)).
  { unfold Content.alpha_byte.
    destruct (Z.eqb_spec a 0) as [->|Hn]; [reflexivity|].
    destruct (Z.leb_spec a 1) as [H1|H1].
    - assert (a = 1) by lia. subst a. reflexivity.
    - cbv zeta. destruct (Z.ltb_spec (a * 255) 256); [lia|reflexivity]. }
  split; [exact Halpha|].
  intros displays' H. unfold Content.set_color in H. rewrite Halpha in H.
  destruct (Z.leb_spec a 1) as [H1|H1]; [|discriminate].
  injection H as <-. split; [exact H1|]. apply on_display_same.
Qed.

Lemma set_color_alpha_is_opaque_witness :
  Content.alpha_byte 1 = Some 255.
Proof.
  apply (set_color_alpha_is_opaque Content.PaddingColor "preview"
                                   10 20 30 1 ∅).
  lia.
Defined.

(** X20.  A call of any function of the file touches at most the display
    under its own key.  Apart from the two creations and the destruction, a
    call neither adds nor removes a display, and it leaves a display's
    window handle and source name as they were, the display having received
    at most one more call; on an unknown key it changes nothing at all. *)
Theorem display_request_touches_one_key
  (q : Content.request) (displays displays' : gmap string Content.Display) :
  Content.serve q displays = Some displays' ->
  (forall k, k <> Content.request_key q -> displays' !! k = displays !! k)
  /\ (Content.changes_registry q = false ->
      (displays !! Content.request_key q = None -> displays' = displays)
      /\ (forall d, displays !! Content.request_key q = Some d ->
            exists c,
              displays' !! Content.request_key q
              = Some (Content.receive c d))).
Proof.
  intros H.
  assert (Hset : forall key c,
            (forall k, k <> key ->
               Content.on_display key c displays !! k = displays !! k)
            /\ (displays !! key = None ->
                Content.on_display key c displays = displays)
            /\ (forall d, displays !! key = Some d ->
                  exists c', Content.on_display key c displays !! key
                             = Some (Content.receive c' d))).
  { intros key c. split; [intros k Hk; now apply on_display_other|]. split.
    - intros E. unfold Content.on_display. now rewrite E.
    - intros d E. exists c. now rewrite on_display_same, E. }
  destruct q; cbn [Content.serve Content.request_key Content.changes_registry]
    in H |- *.
  - injection H as <-. split; [|discriminate].
    intros k Hk. unfold Content.OBS_content_createDisplay.
    destruct (displays !! key); [reflexivity|].
    apply lookup_insert_ne. congruence.
  - injection H as <-. split; [|discriminate].
    intros k Hk. unfold Content.OBS_content_destroyDisplay.
    destruct (displays !! key); [|reflexivity].
    apply lookup_delete_ne. congruence.
  - injection H as <-. split; [|discriminate].
    intros k Hk. unfold Content.OBS_content_createSourcePreviewDisplay.
    destruct (displays !! key); [reflexivity|].
    apply lookup_insert_ne. congruence.
  - injection H as <-. unfold Content.OBS_content_resizeDisplay.
    destruct (Hset key (Content.SetSize (int_of_uint32 width)
                                        (int_of_uint32 height)))
      as (A & B & C). auto.
  - injection H as <-. unfold Content.OBS_content_moveDisplay.
    destruct (Hset key (Content.SetPosition (int_of_uint32 x)
                                            (int_of_uint32 y)))
      as (A & B & C). auto.
  - injection H as <-. unfold Content.OBS_content_setPaddingSize.
    destruct (Hset key (Content.SetPaddingSize size)) as (A & B & C). auto.
  - unfold Content.set_color in H.
    destruct (Content.alpha_byte a) as [alpha|]; [|discriminate].
    injection H as <-.
    destruct (Hset key (Content.SetColor target (Content.uint8_of_uint32 r)
                          (Content.uint8_of_uint32 g)
                          (Content.uint8_of_uint32 b) alpha))
      as (A & B & C). auto.
  - injection H as <-. unfold Content.OBS_content_setShouldDrawUI.
    destruct (Hset key (Content.SetDrawUI (negb (value =? 0))))
      as (A & B & C). auto.
  - injection H as <-. unfold Content.OBS_content_setDrawGuideLines.
    destruct (Hset key (Content.SetDrawGuideLines (negb (value =? 0))))
      as (A & B & C). auto.
Qed.

Lemma display_request_touches_one_key_witness :
  Content.OBS_content_resizeDisplay "preview" 640 480
    (Content.OBS_content_createDisplay 7 "main" ∅) !! "main"
  = Content.OBS_content_createDisplay 7 "main" ∅ !! "main".
Proof.
  apply (display_request_touches_one_key
           (Content.ResizeDisplay "preview" 640 480) _ _ eq_refl).
  discriminate.
Defined.

(** X21.  The registry keeps the first display created under a key: a
    creation under a key in use changes nothing, whatever window or source
    it names.  A creation under a free key adds a display that has received
    no call, and destroying it again gives back the registry as it was.  A
    destruction of an unknown key changes nothing, so destroying twice is
    destroying once. *)
Theorem createDisplay_keeps_the_first
  (handle : Z) (source key : string) (displays : gmap string Content.Display) :
  (forall d, displays !! key = Some d ->
     Content.OBS_content_createDisplay handle key displays = displays
     /\ Content.OBS_content_createSourcePreviewDisplay handle source key
          displays = displays)
  /\ (displays !! key = None ->
      Content.OBS_content_createDisplay handle key displays !! key
      = Some (Content.new_Display handle None)
      /\ Content.OBS_content_createSourcePreviewDisplay handle source key
           displays !! key
         = Some (Content.new_Display handle (Some source))
      /\ Content.OBS_content_destroyDisplay key
           (Content.OBS_content_createDisplay handle key displays) = displays
      /\ Content.OBS_content_destroyDisplay key
           (Content.OBS_content_createSourcePreviewDisplay handle source key
              displays) = displays
      /\ Content.OBS_content_destroyDisplay key displays = displays)
  /\ Content.OBS_content_destroyDisplay key displays !! key = None
  /\ Content.OBS_content_destroyDisplay key
       (Content.OBS_content_destroyDisplay key displays)
     = Content.OBS_content_destroyDisplay key displays.
Proof.
  unfold Content.OBS_content_createDisplay,
    Content.OBS_content_createSourcePreviewDisplay.
  split; [|split; [|split]].
  - intros d E. rewrite E. split; reflexivity.
  - intros E. rewrite E. unfold Content.OBS_content_destroyDisplay.
    rewrite !lookup_insert_eq, E.
    repeat split; try reflexivity; now apply delete_insert_id.
  - unfold Content.OBS_content_destroyDisplay.
    destruct (displays !! key) eqn:E; [apply lookup_delete_eq | exact E].
  - unfold Content.OBS_content_destroyDisplay.
    destruct (displays !! key) eqn:E; [|now rewrite E].
    now rewrite lookup_delete_eq.
Qed.

Lemma createDisplay_keeps_the_first_witness :
  Content.OBS_content_createDisplay 9 "main"
    (Content.OBS_content_createDisplay 7 "main" ∅)
  = Content.OBS_content_createDisplay 7 "main" ∅.
Proof.
  apply (proj1 (createDisplay_keeps_the_first 9 "scene" "main"
                  (Content.OBS_content_createDisplay 7 "main" ∅))
               (Content.new_Display 7 None)).
  reflexivity.
Defined.
